(** * Analytical image views ([imageAnalysisViews.ts]): the four per-pixel
    filters and the view aggregator.

    The source works on the browser's [ImageData]: a width, a height and a
    [Uint8ClampedArray] of [4 * width * height] samples (R, G, B, A per
    pixel, row-major).  JavaScript numbers are IEEE 754 binary64 values, so
    they are embedded as Rocq's primitive floats; a store into the clamped
    byte array goes through the conversion [ToUint8Clamp] of the language
    standard; reads outside the array give [undefined], which every
    arithmetic use in the source turns into NaN. *)

From Stdlib Require Import ZArith Lia List Bool.
From Corelib Require Import PrimInt63.
From Stdlib Require Uint63.
From Stdlib Require Import Floats.
From stdpp Require Import base list list_numbers.

Set Warnings "-inexact-float".
Open Scope Z_scope.

(** ** JavaScript numbers *)

Module JS.

Definition number := float.

  (** The number read from an in-range byte sample. *)
Definition ofByte (b : Z) : number := of_uint63 (Uint63.of_Z b).

  (** The number denoted by a (possibly negative) integer. *)
Definition ofZ (z : Z) : number :=
    if z <? 0 then (- ofByte (- z))%float else ofByte z.

  (** [Math.min(a, b)]: NaN if either is NaN, and -0 below +0. *)
Definition Math_min (a b : number) : number :=
    match PrimFloat.compare a b with
    | FLt => a
    | FGt => b
    | FEq => if get_sign a then a else b
    | FNotComparable => nan
    end.

  (** [Math.max(a, b)]: NaN if either is NaN, and +0 above -0. *)
Definition Math_max (a b : number) : number :=
    match PrimFloat.compare a b with
    | FLt => b
    | FGt => a
    | FEq => if get_sign a then b else a
    | FNotComparable => nan
    end.

Definition Math_max3 (a b c : number) : number := Math_max (Math_max a b) c.
Definition Math_min3 (a b c : number) : number := Math_min (Math_min a b) c.

Definition Math_abs (a : number) : number := PrimFloat.abs a.
Definition Math_sqrt (a : number) : number := PrimFloat.sqrt a.

  (** [Math.pow(b, 2)]: the source only ever raises to the literal power 2,
      which is the product [b * b]. *)
Definition Math_pow_2 (b : number) : number := (b * b)%float.

  (** [floor c] for [0 <= c < 256], found bit by bit from the top: [acc]
      is kept at most [c], and each of the [k] remaining bits is added when
      the sum still is. *)
Fixpoint floor_bits (k : nat) (acc : Z) (c : number) : Z :=
    match k with
    | O => acc
    | S k' =>
        let t := acc + 2 ^ Z.of_nat k' in
        floor_bits k' (if (ofByte t <=? c)%float then t else acc) c
    end.

Definition floor_byte (c : number) : Z := floor_bits 8 0 c.

  (** [ToUint8Clamp]: NaN goes to 0, the value is clamped to [0, 255] and
      rounded to the nearest integer, ties to the even one. *)
Definition ToUint8Clamp (v : number) : Z :=
    if is_nan v then 0
    else
      let clamped := Math_min (Math_max v 0%float) 255%float in
      let f := floor_byte clamped in
      if (clamped <? ofByte f + 0.5)%float then f
      else if (ofByte f + 0.5 <? clamped)%float then f + 1
      else if Z.even f then f else f + 1.

End JS.

Import JS.

Global Arguments ToUint8Clamp : simpl never.
Global Arguments floor_byte : simpl never.

(** ** [ImageData] and its [Uint8ClampedArray] *)

Record ImageData := mkImageData {
  width : Z;
  height : Z;
  data : list Z
}.

(** [new ImageData(sw, sh)]: throws (an [IndexSizeError]) when a dimension
    is zero, else a raster of transparent black: every sample 0. *)
Definition newImageData (sw sh : Z) : option ImageData :=
  if (sw <=? 0) || (sh <=? 0) then None
  else Some (mkImageData sw sh (replicate (Z.to_nat (sw * sh * 4)) 0)).

(** [arr[i]] as a number: [undefined] (NaN in arithmetic) out of range. *)
Definition load (arr : list Z) (i : Z) : number :=
  if i <? 0 then nan
  else match arr !! Z.to_nat i with
       | Some b => ofByte b
       | None => nan
       end.

(** [arr[i] = v]: a store outside a typed array is dropped. *)
Definition store (arr : list Z) (i : Z) (v : number) : list Z :=
  if i <? 0 then arr else <[Z.to_nat i := ToUint8Clamp v]> arr.

(** [for (let i = lo; i < hi; i++) body]. *)
Definition for_range {S : Type} (lo hi : Z) (body : Z → S → S) (s : S) : S :=
  foldl (λ acc i, body i acc) s (seqZ lo (hi - lo)).

(** An input the browser can hand to a filter: positive dimensions, four
    byte samples per pixel. *)
Record wf_image (img : ImageData) : Prop := {
  wf_width : 0 < width img;
  wf_height : 0 < height img;
  wf_length : Z.of_nat (length (data img)) = width img * height img * 4;
  wf_bytes : Forall (λ b, 0 ≤ b ≤ 255) (data img)
}.

(** A pixel value as the source computes it, before the clamped stores. *)
Record pixel := Px { pr : number; pg : number; pb : number; pa : number }.

(** The four consecutive stores that end every filter's loop body. *)
Definition store_pixel (out : list Z) (idx : Z) (p : pixel) : list Z :=
  let out := store out idx (pr p) in
  let out := store out (idx + 1) (pg p) in
  let out := store out (idx + 2) (pb p) in
  store out (idx + 3) (pa p).

(** ** Edge filter *)

Section Edge.
Variable imageData : ImageData.
Let d := data imageData.
Let w := width imageData.

Definition edge_gx (x y : Z) : number :=
    (load d (((y - 1) * w + (x + 1)) * 4) - load d (((y - 1) * w + (x - 1)) * 4) +
     2 * (load d ((y * w + (x + 1)) * 4) - load d ((y * w + (x - 1)) * 4)) +
     load d (((y + 1) * w + (x + 1)) * 4) - load d (((y + 1) * w + (x - 1)) * 4))%float.

Definition edge_gy (x y : Z) : number :=
    (load d (((y - 1) * w + (x - 1)) * 4) + 2 * load d (((y - 1) * w + x) * 4) + load d (((y - 1) * w + (x + 1)) * 4) -
     load d (((y + 1) * w + (x - 1)) * 4) - 2 * load d (((y + 1) * w + x) * 4) - load d (((y + 1) * w + (x + 1)) * 4))%float.

Definition edge_pixel (x y : Z) : pixel :=
    let gx := edge_gx x y in
    let gy := edge_gy x y in
    let magnitude := Math_sqrt (gx * gx + gy * gy)%float in
    let value := Math_min 255%float magnitude in
    Px value value value 255%float.

Definition edge_body (y x : Z) (out : list Z) : list Z :=
    let idx := (y * w + x) * 4 in
    store_pixel out idx (edge_pixel x y).
End Edge.

Definition generateEdgeDetection (imageData : ImageData) : option ImageData :=
  let width := width imageData in
  let height := height imageData in
  outputData ← newImageData width height;
  Some (mkImageData width height
          (for_range 1 (height - 1) (λ y,
             for_range 1 (width - 1) (λ x, edge_body imageData y x))
             (data outputData))).

(** ** Texture filter *)

Definition windowSize : Z := 5.
(** [Math.floor(windowSize / 2)]. *)
Definition halfWindow : Z := windowSize `div` 2.

Section Texture.
Variable imageData : ImageData.
Let d := data imageData.
Let w := width imageData.

  (** The first pair of window loops: the running [sum] and [count]. *)
Definition texture_sum_count (x y : Z) : number * number :=
    for_range (- halfWindow) (halfWindow + 1) (λ dy,
      for_range (- halfWindow) (halfWindow + 1) (λ dx '(sum, count),
        let idx := ((y + dy) * w + (x + dx)) * 4 in
        ((sum + (load d idx + load d (idx + 1) + load d (idx + 2)) / 3)%float,
         (count + 1)%float)))
      (0%float, 0%float).

  (** The second pair of window loops: the running [variance]. *)
Definition texture_variance_sum (x y : Z) (mean : number) : number :=
    for_range (- halfWindow) (halfWindow + 1) (λ dy,
      for_range (- halfWindow) (halfWindow + 1) (λ dx variance,
        let idx := ((y + dy) * w + (x + dx)) * 4 in
        let gray := ((load d idx + load d (idx + 1) + load d (idx + 2)) / 3)%float in
        (variance + Math_pow_2 (gray - mean))%float))
      0%float.

Definition texture_value (x y : Z) : number :=
    let '(sum, count) := texture_sum_count x y in
    let mean := (sum / count)%float in
    let variance := texture_variance_sum x y mean in
    let variance := (variance / count)%float in
    Math_min 255%float (Math_sqrt variance * 3)%float.

Definition texture_pixel (x y : Z) : pixel :=
    let textureValue := texture_value x y in
    Px textureValue (textureValue * 0.8)%float (textureValue * 0.6)%float 255%float.

Definition texture_body (y x : Z) (out : list Z) : list Z :=
    let outputIdx := (y * w + x) * 4 in
    store_pixel out outputIdx (texture_pixel x y).
End Texture.

Definition generateTextureAnalysis (imageData : ImageData) : option ImageData :=
  let width := width imageData in
  let height := height imageData in
  outputData ← newImageData width height;
  Some (mkImageData width height
          (for_range halfWindow (height - halfWindow) (λ y,
             for_range halfWindow (width - halfWindow) (λ x, texture_body imageData y x))
             (data outputData))).

(** ** Lighting filter *)

Section Lighting.
Variable imageData : ImageData.
Let d := data imageData.
Let w := width imageData.

Definition lighting_pixel (x y : Z) : pixel :=
    let idx := (y * w + x) * 4 in
    let luminance :=
      (0.299 * load d idx + 0.587 * load d (idx + 1) + 0.114 * load d (idx + 2))%float in
    let leftLum :=
      (0.299 * load d ((y * w + (x - 1)) * 4) + 0.587 * load d ((y * w + (x - 1)) * 4 + 1)
       + 0.114 * load d ((y * w + (x - 1)) * 4 + 2))%float in
    let rightLum :=
      (0.299 * load d ((y * w + (x + 1)) * 4) + 0.587 * load d ((y * w + (x + 1)) * 4 + 1)
       + 0.114 * load d ((y * w + (x + 1)) * 4 + 2))%float in
    let topLum :=
      (0.299 * load d (((y - 1) * w + x) * 4) + 0.587 * load d (((y - 1) * w + x) * 4 + 1)
       + 0.114 * load d (((y - 1) * w + x) * 4 + 2))%float in
    let bottomLum :=
      (0.299 * load d (((y + 1) * w + x) * 4) + 0.587 * load d (((y + 1) * w + x) * 4 + 1)
       + 0.114 * load d (((y + 1) * w + x) * 4 + 2))%float in
    let horizontalGrad := Math_abs (rightLum - leftLum)%float in
    let verticalGrad := Math_abs (bottomLum - topLum)%float in
    let gradientMagnitude :=
      Math_sqrt (horizontalGrad * horizontalGrad + verticalGrad * verticalGrad)%float in
    let enhancedValue := Math_min 255%float (gradientMagnitude * 2)%float in
    Px (luminance * 0.5 + enhancedValue * 0.5)%float
       enhancedValue
       (luminance * 0.3)%float
       255%float.

Definition lighting_body (y x : Z) (out : list Z) : list Z :=
    let idx := (y * w + x) * 4 in
    store_pixel out idx (lighting_pixel x y).
End Lighting.

Definition generateLightingAnalysis (imageData : ImageData) : option ImageData :=
  let width := width imageData in
  let height := height imageData in
  outputData ← newImageData width height;
  Some (mkImageData width height
          (for_range 1 (height - 1) (λ y,
             for_range 1 (width - 1) (λ x, lighting_body imageData y x))
             (data outputData))).

(** ** Color filter *)

Definition saturation_of (r g b : number) : number :=
  let max := Math_max3 r g b in
  let min := Math_min3 r g b in
  if (max =? 0)%float then 0%float else ((max - min) / max)%float.

Definition colorUniformity_of (r g b : number) : number :=
  (1 - Math_abs (r - g) / 255 - Math_abs (g - b) / 255 - Math_abs (r - b) / 255)%float.

Definition artificialness_of (r g b : number) : number :=
  let saturation := saturation_of r g b in
  let colorUniformity := colorUniformity_of r g b in
  if (0.8 <? saturation)%float || (0.9 <? colorUniformity)%float
  then 255%float else (saturation * 255)%float.

Section Color.
Variable imageData : ImageData.
Let d := data imageData.
Let w := width imageData.

Definition color_pixel (x y : Z) : pixel :=
    let idx := (y * w + x) * 4 in
    let r := load d idx in
    let g := load d (idx + 1) in
    let b := load d (idx + 2) in
    let artificialness := artificialness_of r g b in
    Px (r * 0.3 + artificialness * 0.7)%float
       (g * 0.3 + artificialness * 0.5)%float
       (b * 0.3 + artificialness * 0.3)%float
       255%float.

Definition color_body (y x : Z) (out : list Z) : list Z :=
    let idx := (y * w + x) * 4 in
    store_pixel out idx (color_pixel x y).
End Color.

Definition generateColorDistribution (imageData : ImageData) : option ImageData :=
  let width := width imageData in
  let height := height imageData in
  outputData ← newImageData width height;
  Some (mkImageData width height
          (for_range 0 height (λ y,
             for_range 0 width (λ x, color_body imageData y x))
             (data outputData))).

(** ** The four filters as one family *)

Inductive Filter := Edge | Texture | Lighting | Color.

Definition apply_filter (f : Filter) : ImageData → option ImageData :=
  match f with
  | Edge => generateEdgeDetection
  | Texture => generateTextureAnalysis
  | Lighting => generateLightingAnalysis
  | Color => generateColorDistribution
  end.

(** Width of the ring next to the border that a filter's loops skip. *)
Definition radius (f : Filter) : Z :=
  match f with
  | Edge => 1
  | Texture => halfWindow
  | Lighting => 1
  | Color => 0
  end.

Definition kernel (f : Filter) : ImageData → Z → Z → pixel :=
  match f with
  | Edge => edge_pixel
  | Texture => texture_pixel
  | Lighting => lighting_pixel
  | Color => color_pixel
  end.

(** The samples a filter's loop body reads at a position: channel [c] of the
    pixel [dx] columns and [dy] rows away.  Edge reads the red of the eight
    neighbours and not the pixel itself; Texture the colours of its 5×5
    window; Lighting those of the pixel and its four direct neighbours; Color
    those of the pixel alone.  No filter reads alpha. *)
Definition reads (f : Filter) (dx dy c : Z) : bool :=
  match f with
  | Edge =>
      (c =? 0) && (Z.abs dx <=? 1) && (Z.abs dy <=? 1)
      && negb ((dx =? 0) && (dy =? 0))
  | Texture => (0 <=? c) && (c <? 3) && (Z.abs dx <=? 2) && (Z.abs dy <=? 2)
  | Lighting => (0 <=? c) && (c <? 3) && (Z.abs dx + Z.abs dy <=? 1)
  | Color => (0 <=? c) && (c <? 3) && (dx =? 0) && (dy =? 0)
  end.

(** ** Reading rasters *)

Definition len (arr : list Z) : Z := Z.of_nat (length arr).

(** [arr[i]] as a byte, when there is one. *)
Definition sample (arr : list Z) (i : Z) : option Z :=
  if i <? 0 then None else arr !! Z.to_nat i.

(** Channel [c] (0 = R, 1 = G, 2 = B, 3 = A) of the pixel in column [x] of
    row [y]. *)
Definition sample_at (img : ImageData) (x y c : Z) : option Z :=
  sample (data img) ((y * width img + x) * 4 + c).

Definition pixel_at (img : ImageData) (x y : Z) : option (Z * Z * Z * Z) :=
  r ← sample_at img x y 0;
  g ← sample_at img x y 1;
  b ← sample_at img x y 2;
  a ← sample_at img x y 3;
  Some (r, g, b, a).

Definition chan (c : Z) (p : pixel) : number :=
  if c =? 0 then pr p else if c =? 1 then pg p else if c =? 2 then pb p else pa p.

(** The bytes a pixel value is stored as. *)
Definition clamp_pixel (p : pixel) : Z * Z * Z * Z :=
  (ToUint8Clamp (pr p), ToUint8Clamp (pg p), ToUint8Clamp (pb p), ToUint8Clamp (pa p)).

(** The common shape of the four filters: two nested loops over a window of
    the grid, one [store_pixel] per visited position. *)
Definition raster_loop (w x0 x1 y0 y1 : Z) (px : Z → Z → pixel) (out : list Z) : list Z :=
  for_range y0 y1 (λ y,
    for_range x0 x1 (λ x acc, store_pixel acc ((y * w + x) * 4) (px x y))) out.

Definition raster_filter (r : Z) (px : ImageData → Z → Z → pixel) (img : ImageData)
  : option ImageData :=
  outputData ← newImageData (width img) (height img);
  Some (mkImageData (width img) (height img)
          (raster_loop (width img) r (width img - r) r (height img - r) (px img)
             (data outputData))).

(** ** Auxiliary definitions for the loops *)

(** The stores of one row of the loops, and of all rows. *)
Definition row_writes (w : Z) (px : Z → Z → pixel) (y : Z) (xs : list Z)
    (out : list Z) : list Z :=
  foldl (λ acc x, store_pixel acc ((y * w + x) * 4) (px x y)) out xs.

Definition grid_writes (w : Z) (px : Z → Z → pixel) (ys xs : list Z)
    (out : list Z) : list Z :=
  foldl (λ acc y, row_writes w px y xs acc) out ys.

(** The raster a filter of border [r] and kernel [px] hands to
    [putImageData]. *)
Definition filtered (r : Z) (px : ImageData → Z → Z → pixel) (img : ImageData)
  : ImageData :=
    mkImageData (width img) (height img)
      (raster_loop (width img) r (width img - r) r (height img - r) (px img)
         (replicate (Z.to_nat (width img * height img * 4)) 0)).

(** ** Predicates on rasters, and their checkers *)

Definition wf_imageb (img : ImageData) : bool :=
  (0 <? width img) && (0 <? height img)
  && (len (data img) =? width img * height img * 4)
  && forallb (λ b, (0 <=? b) && (b <=? 255)) (data img).

(** Two sample arrays that agree outside the alpha channel. *)
Definition rgb_agree (d1 d2 : list Z) : Prop :=
  ∀ i, i `mod` 4 ≠ 3 → sample d1 i = sample d2 i.

(** Two sample arrays that agree on the red channel. *)
Definition red_agree (d1 d2 : list Z) : Prop :=
  ∀ i, i `mod` 4 = 0 → sample d1 i = sample d2 i.

Definition agree_onb (keep : Z → bool) (d1 d2 : list Z) : bool :=
  (len d1 =? len d2)
  && forallb (λ i, negb (keep i) || bool_decide (sample d1 i = sample d2 i))
       (seqZ 0 (len d1)).

(** The window of the grid that a filter of border [r] visits. *)
Definition visited (r : Z) (img : ImageData) (x y : Z) : Prop :=
  r ≤ x < width img - r ∧ r ≤ y < height img - r.

Definition in_grid (img : ImageData) (x y : Z) : Prop :=
  0 ≤ x < width img ∧ 0 ≤ y < height img.

(** The ring of width [r] along the border of the grid. *)
Definition border_ring (r : Z) (img : ImageData) (x y : Z) : Prop :=
  in_grid img x y
  ∧ (x < r ∨ width img - r ≤ x ∨ y < r ∨ height img - r ≤ y).

#[global] Instance visited_dec r img x y : Decision (visited r img x y).
Proof. unfold visited. apply _. Defined.

Definition gray_checkb (v : Z) : bool :=
  let r := ofByte v in
  PrimFloat.Leibniz.eqb (saturation_of r r r) 0%float
  && PrimFloat.Leibniz.eqb (colorUniformity_of r r r) 1%float
  && PrimFloat.Leibniz.eqb (artificialness_of r r r) 255%float.

(** ** The filters' formulas, by pixel coordinates *)

Module Spec.

(** Channel values of the pixel in column [x] of row [y], as numbers. *)
Definition red (img : ImageData) (x y : Z) : number :=
  load (data img) ((y * width img + x) * 4).
Definition green (img : ImageData) (x y : Z) : number :=
  load (data img) ((y * width img + x) * 4 + 1).
Definition blue (img : ImageData) (x y : Z) : number :=
  load (data img) ((y * width img + x) * 4 + 2).

(** luminance(p) = 0.299 R + 0.587 G + 0.114 B. *)
Definition luminance (img : ImageData) (x y : Z) : number :=
  (0.299 * red img x y + 0.587 * green img x y + 0.114 * blue img x y)%float.

(** enhanced = min(255, 2 * sqrt(h² + v²)) from the luminance differences
    of the horizontal and of the vertical neighbours. *)
Definition enhanced (img : ImageData) (x y : Z) : number :=
  let h := Math_abs (luminance img (x + 1) y - luminance img (x - 1) y)%float in
  let v := Math_abs (luminance img x (y + 1) - luminance img x (y - 1))%float in
  Math_min 255%float (2 * Math_sqrt (h * h + v * v))%float.

Definition lighting (img : ImageData) (x y : Z) : pixel :=
  Px (0.5 * luminance img x y + 0.5 * enhanced img x y)%float
     (enhanced img x y)
     (0.3 * luminance img x y)%float
     255%float.

(** gray(p) = (R + G + B) / 3. *)
Definition gray (img : ImageData) (x y : Z) : number :=
  ((red img x y + green img x y + blue img x y) / 3)%float.

(** The 25 positions of the 5×5 window around [(x, y)], row by row. *)
Definition window (x y : Z) : list (Z * Z) :=
  dy ← seqZ (-2) 5; dx ← seqZ (-2) 5; [(x + dx, y + dy)].

(** Sum of a list of numbers, in list order. *)
Definition total (l : list number) : number :=
  foldl (λ acc v, (acc + v)%float) 0%float l.

Definition mean (img : ImageData) (x y : Z) : number :=
  (total ((λ p, gray img p.1 p.2) <$> window x y) / 25)%float.

Definition variance (img : ImageData) (x y : Z) : number :=
  let m := mean img x y in
  (total ((λ p, (gray img p.1 p.2 - m) * (gray img p.1 p.2 - m))%float
            <$> window x y) / 25)%float.

Definition texture (img : ImageData) (x y : Z) : pixel :=
  let t := Math_min 255%float (Math_sqrt (variance img x y) * 3)%float in
  Px t (t * 0.8)%float (t * 0.6)%float 255%float.

(** The pixel read back from a raster, as numbers. *)
Definition numbers_at (img : ImageData) (x y : Z)
  : option (number * number * number * number) :=
  '(r, g, b, a) ← pixel_at img x y;
  Some (ofByte r, ofByte g, ofByte b, ofByte a).

Definition unrounded (p : pixel) : number * number * number * number :=
  (pr p, pg p, pb p, pa p).

End Spec.

(** ** Example inputs *)

(** One opaque pixel. *)
Definition img1 : ImageData := mkImageData 1 1 [7; 7; 7; 255].

(** A 3×3 raster with one interior pixel. *)
Definition img3 : ImageData := mkImageData 3 3
  [0; 0; 0; 255;  0; 0; 0; 255;  0; 0; 0; 255;
   0; 0; 0; 255;  9; 9; 9; 255;  1; 0; 0; 255;
   0; 0; 0; 255;  1; 0; 0; 255;  1; 0; 0; 255].

(** [img3] with other alpha values. *)
Definition img3_alpha : ImageData := mkImageData 3 3
  [0; 0; 0; 0;  0; 0; 0; 10;  0; 0; 0; 20;
   0; 0; 0; 30;  9; 9; 9; 40;  1; 0; 0; 50;
   0; 0; 0; 60;  1; 0; 0; 70;  1; 0; 0; 80].

(** A 5×5 gray ramp: pixel [k] has R = G = B = [k]. *)
Definition img5 : ImageData :=
  mkImageData 5 5 (k ← seqZ 0 25; [k; k; k; 255]).

(** ** View aggregator *)

(** The four encoded views the aggregator resolves with.  [DataURL] is what
    [canvas.toDataURL()] returns. *)
Record Views (DataURL : Type) := mkViews {
  edgeDetection : DataURL;
  textureAnalysis : DataURL;
  lightingAnalysis : DataURL;
  colorDistribution : DataURL
}.

Global Arguments mkViews {DataURL}.

Global Arguments edgeDetection {DataURL}.

Global Arguments textureAnalysis {DataURL}.

Global Arguments lightingAnalysis {DataURL}.

Global Arguments colorDistribution {DataURL}.

(** The only error the source throws itself:
    [new Error('Could not get canvas context')]. *)
Inductive Error : Set := CouldNotGetCanvasContext.

(** The state of the promise that [generateAnalyticalViews] returns, once
    the browser has handled the image. *)
Inductive Promise (A : Type) :=
| Pending
| Fulfilled (value : A)
| Rejected (reason : Error).

Global Arguments Pending {A}.

Global Arguments Fulfilled {A}.

Global Arguments Rejected {A}.

(** What the browser does after [img.src = imageUrl]: it decodes the file
    and fires [load], or it cannot and fires [error]. *)
Inductive ImageEvent :=
| LoadEvent (decoded : ImageData)
| ErrorEvent.

(** [ctx.getImageData(0, 0, canvas.width, canvas.height)] on the canvas the
    decoded image was drawn to: throws when a dimension is zero. *)
Definition getImageData (decoded : ImageData) : option ImageData :=
  if (width decoded =? 0) || (height decoded =? 0) then None else Some decoded.

Section Aggregator.
Context {DataURL : Type}.
(** [canvas.toDataURL()] right after [ctx.putImageData(outputData, 0, 0)]. *)
Variable toDataURL : ImageData → DataURL.

(** The body of [img.onload]; [None] when a call in it throws, which ends
    the handler before [resolve]. *)
Definition onload (decoded : ImageData) : option (Views DataURL) :=
  imageData ← getImageData decoded;
  edge ← generateEdgeDetection imageData;
  texture ← generateTextureAnalysis imageData;
  lighting ← generateLightingAnalysis imageData;
  color ← generateColorDistribution imageData;
  Some (mkViews (toDataURL edge) (toDataURL texture)
          (toDataURL lighting) (toDataURL color)).

(** [ctx] tells whether [canvas.getContext('2d')] gave a context.  The
    promise's executor takes [resolve] only and sets [img.onload] only: an
    [error] event finds no handler. *)
Definition generateAnalyticalViews (ctx : bool) (event : ImageEvent)
  : Promise (Views DataURL) :=
  if negb ctx then Rejected CouldNotGetCanvasContext
  else match event with
       | LoadEvent decoded =>
           match onload decoded with
           | Some views => Fulfilled views
           | None => Pending
           end
       | ErrorEvent => Pending
       end.
End Aggregator.

(** ** Exhaustive checks over machine integers *)

Abbreviation int_to_Z := Uint63Axioms.to_Z.

Abbreviation int_of := Uint63.of_Z.

(** Exhaustive checks over a range of machine integers. *)
Fixpoint all_from (n : nat) (c : Uint63.int) (P : Uint63.int → bool) : bool :=
  match n with
  | O => true
  | S m => P c && all_from m (Uint63.add c 1%uint63) P
  end.

Definition table2 (na nb : nat) (P : Uint63.int → Uint63.int → bool) : bool :=
  all_from na 0%uint63 (λ i, all_from nb 0%uint63 (P i)).

(** The number coded by [k] with offset [off]: [k - off]. *)
Definition ofCode (off k : Uint63.int) : number :=
  if Uint63.ltb k off
  then (- of_uint63 (Uint63.sub off k))%float
  else of_uint63 (Uint63.sub k off).

Definition add_checkb (i j : Uint63.int) : bool :=
  PrimFloat.Leibniz.eqb (ofCode 1020%uint63 i + ofCode 510%uint63 j)%float
    (ofCode 1530%uint63 (Uint63.add i j)).

Definition sub_checkb (i j : Uint63.int) : bool :=
  PrimFloat.Leibniz.eqb (ofCode 1020%uint63 i - ofCode 510%uint63 j)%float
    (ofCode 1530%uint63 (Uint63.sub (Uint63.add i 1020%uint63) j)).

Definition mul2_checkb (i : Uint63.int) : bool :=
  PrimFloat.Leibniz.eqb (2 * ofCode 255%uint63 i)%float
    (ofCode 510%uint63 (Uint63.mul 2%uint63 i)).

Definition square_checkb (i : Uint63.int) : bool :=
  PrimFloat.Leibniz.eqb (ofCode 1020%uint63 i * ofCode 1020%uint63 i)%float
    (of_uint63 (Uint63.mul (Uint63.sub i 1020%uint63) (Uint63.sub i 1020%uint63))).

Definition sumsq_checkb (i j : Uint63.int) : bool :=
  PrimFloat.Leibniz.eqb
    (of_uint63 (Uint63.mul i i) + of_uint63 (Uint63.mul j j))%float
    (of_uint63 (Uint63.add (Uint63.mul i i) (Uint63.mul j j))).

(** Above 255.5² the clamped magnitude is 255. *)
Definition big_checkb (i j : Uint63.int) : bool :=
  PrimFloat.Leibniz.eqb
    (Math_min 255%float
       (Math_sqrt (of_uint63 (Uint63.add 65281%uint63
                                (Uint63.add (Uint63.mul 2048%uint63 i) j)))))
    255%float.

(** The integer nearest to the square root of [n]. *)
Definition nearest_sqrt (n : Z) : Z :=
  let s := Z.sqrt n in if n <=? s * s + s then s else s + 1.

Fixpoint allZ_from (n : nat) (z : Z) (P : Z → bool) : bool :=
  match n with
  | O => true
  | S m => P z && allZ_from m (z + 1) P
  end.

Definition small_checkb (n : Z) : bool :=
  ToUint8Clamp (Math_min 255%float (Math_sqrt (ofZ n))) =? Z.min 255 (nearest_sqrt n).

(** ** The Edge filter's formula, over the integers *)

Module SpecEdge.

(** The red sample of the pixel in column [x] of row [y], as an integer. *)
Definition R (img : ImageData) (y x : Z) : Z :=
  default 0 (sample_at img x y 0).

Definition gx (img : ImageData) (x y : Z) : Z :=
  (R img (y - 1) (x + 1) - R img (y - 1) (x - 1))
  + 2 * (R img y (x + 1) - R img y (x - 1))
  + (R img (y + 1) (x + 1) - R img (y + 1) (x - 1)).

Definition gy (img : ImageData) (x y : Z) : Z :=
  (R img (y - 1) (x - 1) + 2 * R img (y - 1) x + R img (y - 1) (x + 1))
  - (R img (y + 1) (x - 1) + 2 * R img (y + 1) x + R img (y + 1) (x + 1)).

(** [v] is min(255, sqrt n) exactly: the square root is an integer, or it is
    at least 255. *)
Definition is_clamped_sqrt (n v : Z) : Prop :=
  (0 ≤ v ≤ 255 ∧ v * v = n) ∨ (v = 255 ∧ 255 * 255 ≤ n).

(** min(255, sqrt n) rounded to the nearest integer. *)
Definition rounded_clamped_sqrt (n : Z) : Z := Z.min 255 (nearest_sqrt n).

End SpecEdge.

(** ** More example inputs *)

(** A 4×4 raster whose red channel is 7 everywhere; green and blue vary. *)
Definition img4_red : ImageData :=
  mkImageData 4 4 (k ← seqZ 0 16; [7; k; 2 * k; 255]).

(** ** Flat regions under the Texture filter *)

(** Channel [c] of the pixel in column [x] of row [y], as an integer. *)
Definition channelZ (img : ImageData) (x y c : Z) : Z :=
  default 0 (sample_at img x y c).

(** The texture pixel computed when all 25 grays of the window are [g]. *)
Definition flat_texture (g : number) : pixel :=
  let m := (Spec.total (replicate 25 g) / 25)%float in
  let var := (Spec.total (replicate 25 ((g - m) * (g - m))%float) / 25)%float in
  let t := Math_min 255%float (Math_sqrt var * 3)%float in
  Px t (t * 0.8)%float (t * 0.6)%float 255%float.

Definition flat_checkb (s : Z) : bool :=
  bool_decide (clamp_pixel (flat_texture (ofZ s / 3)%float) = (0, 0, 0, 255)).

(** A 5×5 raster of one colour. *)
Definition img5_flat : ImageData :=
  mkImageData 5 5 (_ ← seqZ 0 25; [10; 200; 31; 255]).

(** A 3×3 raster that is its own mirror image, left to right and top to
    bottom. *)
Definition img3_mirror : ImageData := mkImageData 3 3
  [1; 2; 3; 255;  40; 50; 60; 255;  1; 2; 3; 255;
   7; 8; 9; 255;  100; 150; 200; 255;  7; 8; 9; 255;
   1; 2; 3; 255;  40; 50; 60; 255;  1; 2; 3; 255].

(** ** The Color filter's thresholds, over bytes *)

(** [saturation] from the largest and the smallest channel. *)
Definition saturation_from (max min : number) : number :=
  if (max =? 0)%float then 0%float else ((max - min) / max)%float.

(** [colorUniformity] from the three absolute differences. *)
Definition uniformity_from (a b c : Z) : number :=
  (1 - ofByte a / 255 - ofByte b / 255 - ofByte c / 255)%float.

(** The colours that pass one of the two thresholds: the largest channel is
    more than five times the smallest, or they are at most 12 apart. *)
Definition flagged (r g b : Z) : Prop :=
  let M := Z.max (Z.max r g) b in
  let m := Z.min (Z.min r g) b in
  5 * m < M ∨ M - m ≤ 12.

Definition bytes2 (P : Z → Z → bool) : bool :=
  allZ_from 256 0 (λ i, allZ_from 256 0 (λ j, P i j)).

Definition pair_checkb (r g : Z) : bool :=
  PrimFloat.Leibniz.eqb (Math_max (ofByte r) (ofByte g)) (ofByte (Z.max r g))
  && PrimFloat.Leibniz.eqb (Math_min (ofByte r) (ofByte g)) (ofByte (Z.min r g))
  && PrimFloat.Leibniz.eqb (Math_abs (ofByte r - ofByte g)%float)
       (ofByte (Z.abs (r - g))).

Definition saturation_checkb (M m : Z) : bool :=
  let s := saturation_from (ofByte M) (ofByte m) in
  (M <? m)
  || (Bool.eqb (0.8 <? s)%float (5 * m <? M)
      && ((0.8 <? s)%float || negb (PrimFloat.Leibniz.eqb (s * 255)%float 255%float))).

Definition uniformity_checkb (a b : Z) : bool :=
  ((255 <? a + b)
   || Bool.eqb (0.9 <? uniformity_from a b (a + b))%float (a + b + (a + b) <=? 25))
  && Bool.eqb (0.9 <? uniformity_from a b (Z.abs (a - b)))%float
       (a + b + Z.abs (a - b) <=? 25).

(** ** The caller: scores of [performAIAnalysis] ([aiAnalysis.ts])

    The numbers here are integers that double precision holds exactly (the hash stays
    below 2^53 in absolute value), so they are embedded as [Z]. *)

(** [ToInt32] of an integer. *)
Definition ToInt32 (n : Z) : Z := (n + 2 ^ 31) `mod` 2 ^ 32 - 2 ^ 31.

(** [n << 5]: the left operand is taken to int32, and so is the result. *)
Definition shl5 (n : Z) : Z := ToInt32 (ToInt32 n * 2 ^ 5).

(** [file.name.split('').reduce((hash, char) =>
      ((hash << 5) - hash) + char.charCodeAt(0), 0)], the name given by its
    UTF-16 code units.  Only the shift wraps: the running value is not taken
    back to int32. *)
Definition fileNameHash (name : list Z) : Z :=
  foldl (λ hash char, (shl5 hash - hash) + char) 0 name.

(** A file name: UTF-16 code units, few enough for the hash to stay below
    2^53. *)
Definition file_name (name : list Z) : Prop :=
  Forall (λ c, 0 ≤ c ≤ 65535) name ∧ Z.of_nat (length name) ≤ 2 ^ 20.

(** The score computed from the name, in both the try and the catch branch.
    [isFakeFile] is [fileName.includes('fake') || ...]; the remainder [%]
    takes the sign of the hash; [Math.round] of an integer is that integer. *)
Definition authenticityScore (isFakeFile : bool) (fileNameHash : Z) : Z :=
  let authenticityScore :=
    if isFakeFile then 15 + Z.abs (Z.rem fileNameHash 31)
    else 75 + Z.abs (Z.rem fileNameHash 21) in
  Z.max 0 (Z.min 100 authenticityScore).

(** The confidence of the catch branch. *)
Definition fallbackConfidence (fileNameHash : Z) : Z :=
  Z.max 70 (Z.min 95 (Z.abs (Z.rem fileNameHash 25) + 70)).

(** The catch branch of the other revision of [performAIAnalysis]: the
    score from the name and the size in bytes, and whether the views are
    asked for ([score < 70 && !file.type.startsWith('video/')]). *)
Definition fallbackScore (suspiciousName : bool) (fileNameHash size : Z) : Z :=
  let score := 70 + Z.abs (Z.rem fileNameHash 26) in
  if suspiciousName
  then Z.abs (Z.rem (fileNameHash + size `div` 1024) 60) + 20
  else score.

Definition fallbackRequestsViews (score : Z) (isVideo : bool) : bool :=
  (score <? 70) && negb isVideo.

(** [getStatusInfo] of the gauge ([AuthenticityGauge.tsx]). *)
Inductive Status := authentic | uncertain | fake.

Definition getStatusInfo (score : Z) : Status :=
  if 80 <=? score then authentic
  else if 40 <=? score then uncertain
  else fake.

(** "fake.png" as UTF-16 code units. *)
Definition name_fake_png : list Z := [102; 97; 107; 101; 46; 112; 110; 103].

(** * Properties *)

(** ** Stores and loads *)

Lemma load_sample arr i :
  load arr i = match sample arr i with Some b => ofByte b | None => nan end.
Proof. unfold load, sample. by destruct (i <? 0). Qed.

Lemma len_store arr i v : len (store arr i v) = len arr.
Proof. unfold store, len. destruct (i <? 0); [done|]. by rewrite length_insert. Qed.

Lemma len_store_pixel arr idx p : len (store_pixel arr idx p) = len arr.
Proof. unfold store_pixel. by rewrite !len_store. Qed.

Lemma sample_store arr i v j :
  sample (store arr i v) j =
  if decide (j = i ∧ 0 ≤ i < len arr) then Some (ToUint8Clamp v) else sample arr j.
Proof.
  unfold sample, store, len.
  destruct (Z.ltb_spec i 0) as [Hi|Hi].
  { case_decide; [lia|done]. }
  destruct (Z.ltb_spec j 0) as [Hj|Hj].
  { case_decide; [lia|done]. }
  case_decide as Hd.
  - destruct Hd as [-> ?]. apply list_lookup_insert_eq. lia.
  - destruct (decide (j = i)) as [->|Hne].
    + rewrite list_insert_ge by lia. done.
    + apply list_lookup_insert_ne. lia.
Qed.

Lemma sample_store_pixel arr idx p j :
  sample (store_pixel arr idx p) j =
  if decide (idx ≤ j < idx + 4 ∧ 0 ≤ j < len arr)
  then Some (ToUint8Clamp (chan (j - idx) p))
  else sample arr j.
Proof.
  unfold store_pixel. rewrite !sample_store, !len_store.
  destruct (decide (idx ≤ j < idx + 4 ∧ 0 ≤ j < len arr)) as [[Hin Hlen]|Hout].
  - assert (j - idx = 0 ∨ j - idx = 1 ∨ j - idx = 2 ∨ j - idx = 3) as Hc by lia.
    destruct Hc as [Hc|[Hc|[Hc|Hc]]]; rewrite Hc; unfold chan;
      cbn [Z.eqb Pos.eqb]; repeat case_decide; first [lia | reflexivity].
  - repeat case_decide; first [lia | reflexivity].
Qed.

Lemma sample_replicate n j :
  sample (replicate n 0) j = if decide (0 ≤ j < Z.of_nat n) then Some 0 else None.
Proof.
  unfold sample. destruct (Z.ltb_spec j 0); case_decide; try lia; try done.
  - apply lookup_replicate_2. lia.
  - apply lookup_ge_None. rewrite length_replicate. lia.
Qed.

(** Rasters with the same bytes everywhere are the same list. *)
Lemma sample_ext (a b : list Z) :
  (∀ j, sample a j = sample b j) → a = b.
Proof.
  intros H. apply list_eq. intros i. specialize (H (Z.of_nat i)).
  unfold sample in H. destruct (Z.ltb_spec (Z.of_nat i) 0); [lia|].
  by rewrite Nat2Z.id in H.
Qed.

(** ** The loops *)

Lemma foldl_ext_in {A B : Type} (f g : A → B → A) (l : list B) (a : A) :
  (∀ a b, b ∈ l → f a b = g a b) → foldl f a l = foldl g a l.
Proof.
  revert a. induction l as [|b l IH]; intros a H; [done|]. simpl.
  rewrite H by left. apply IH. intros. apply H. by right.
Qed.

Section Loops.
Variables (w : Z) (px : Z → Z → pixel).

Lemma row_writes_snoc y xs x out :
    row_writes w px y (xs ++ [x]) out
    = store_pixel (row_writes w px y xs out) ((y * w + x) * 4) (px x y).
  Proof. unfold row_writes. by rewrite foldl_app. Qed.

Lemma grid_writes_snoc ys y xs out :
    grid_writes w px (ys ++ [y]) xs out = row_writes w px y xs (grid_writes w px ys xs out).
  Proof. unfold grid_writes. by rewrite foldl_app. Qed.

Lemma len_row_writes y xs out : len (row_writes w px y xs out) = len out.
  Proof.
    unfold row_writes. revert out.
    induction xs as [|x xs IH]; intros out; simpl; [done|].
    rewrite IH. apply len_store_pixel.
  Qed.

Lemma len_grid_writes ys xs out : len (grid_writes w px ys xs out) = len out.
  Proof.
    unfold grid_writes. revert out.
    induction ys as [|y ys IH]; intros out; simpl; [done|].
    rewrite IH. apply len_row_writes.
  Qed.

  (** Sample [j] belongs to pixel [j / 4]; row [y] writes it when column
      [j / 4 - y * w] is visited. *)
Lemma sample_row_writes y xs out j :
    sample (row_writes w px y xs out) j =
    if decide (0 ≤ j < len out ∧ j `div` 4 - y * w ∈ xs)
    then Some (ToUint8Clamp (chan (j `mod` 4) (px (j `div` 4 - y * w) y)))
    else sample out j.
  Proof.
    induction xs as [|x xs IH] using rev_ind.
    { simpl. case_decide as H; [|done]. destruct H as [_ H]. by apply elem_of_nil in H. }
    rewrite row_writes_snoc, sample_store_pixel, len_row_writes.
    pose proof (Z.div_mod j 4 ltac:(lia)) as Hdm.
    pose proof (Z.mod_pos_bound j 4 ltac:(lia)) as Hmb.
    destruct (decide ((y * w + x) * 4 ≤ j < (y * w + x) * 4 + 4 ∧ 0 ≤ j < len out))
      as [[Hin Hlen]|Hout].
    - assert (j `div` 4 - y * w = x) as Hx by lia.
      rewrite decide_True
        by (split; [done|]; rewrite Hx; apply elem_of_app; right; by apply list_elem_of_singleton).
      rewrite Hx. do 3 f_equal. lia.
    - rewrite IH.
      destruct (decide (0 ≤ j < len out ∧ j `div` 4 - y * w ∈ xs)) as [[Hl Hm]|Hn].
      + rewrite decide_True; [done|]. split; [done|]. apply elem_of_app. by left.
      + rewrite decide_False; [done|]. intros [Hl Hm].
        apply elem_of_app in Hm as [Hm|Hm]; [by apply Hn|].
        apply list_elem_of_singleton in Hm. apply Hout. split; [lia|done].
  Qed.

Hypothesis w_pos : 0 < w.

Lemma sample_grid_writes ys xs out j :
    (∀ x, x ∈ xs → 0 ≤ x < w) →
    sample (grid_writes w px ys xs out) j =
    if decide (0 ≤ j < len out ∧ (j `div` 4) `div` w ∈ ys ∧ (j `div` 4) `mod` w ∈ xs)
    then Some (ToUint8Clamp (chan (j `mod` 4)
                 (px ((j `div` 4) `mod` w) ((j `div` 4) `div` w))))
    else sample out j.
  Proof.
    intros Hxs.
    induction ys as [|y ys IH] using rev_ind.
    { simpl. case_decide as H; [|done]. destruct H as (_ & H & _). by apply elem_of_nil in H. }
    rewrite grid_writes_snoc, sample_row_writes, len_grid_writes.
    set (k := j `div` 4) in *.
    pose proof (Z.div_mod k w ltac:(lia)) as Hdm.
    pose proof (Z.mod_pos_bound k w ltac:(lia)) as Hmb.
    destruct (decide (0 ≤ j < len out ∧ k - y * w ∈ xs)) as [[Hlen Hin]|Hout].
    - pose proof (Hxs _ Hin) as Hb.
      assert (k `div` w = y) as Hy.
      { symmetry. apply (Z.div_unique k w y (k - y * w)); lia. }
      assert (k - y * w = k `mod` w) as Hx by (rewrite <- Hy; lia).
      rewrite decide_True.
      + by rewrite Hx, Hy.
      + split; [done|]. split; [|by rewrite <- Hx].
        rewrite Hy. apply elem_of_app. right. by apply list_elem_of_singleton.
    - rewrite IH.
      destruct (decide (0 ≤ j < len out ∧ k `div` w ∈ ys ∧ k `mod` w ∈ xs))
        as [(Hl & Hy & Hx)|Hn].
      + rewrite decide_True; [done|]. split; [done|]. split; [|done].
        apply elem_of_app. by left.
      + rewrite decide_False; [done|]. intros (Hl & Hy & Hx).
        apply elem_of_app in Hy as [Hy|Hy]; [by apply Hn|].
        apply list_elem_of_singleton in Hy. apply Hout. split; [done|].
        replace (k - y * w) with (k `mod` w) by (rewrite <- Hy; lia). done.
  Qed.
End Loops.

Lemma raster_loop_grid w x0 x1 y0 y1 px out :
  raster_loop w x0 x1 y0 y1 px out
  = grid_writes w px (seqZ y0 (y1 - y0)) (seqZ x0 (x1 - x0)) out.
Proof. reflexivity. Qed.

Lemma len_raster_loop w x0 x1 y0 y1 px out :
  len (raster_loop w x0 x1 y0 y1 px out) = len out.
Proof. rewrite raster_loop_grid. apply len_grid_writes. Qed.

(** Closed form of the nested loops: sample [j] is rewritten exactly when
    its pixel's column and row lie in the visited window. *)
Lemma sample_raster_loop w x0 x1 y0 y1 px out j :
  0 < w → 0 ≤ x0 → x1 ≤ w →
  sample (raster_loop w x0 x1 y0 y1 px out) j =
  if decide (0 ≤ j < len out ∧ y0 ≤ (j `div` 4) `div` w < y1
             ∧ x0 ≤ (j `div` 4) `mod` w < x1)
  then Some (ToUint8Clamp (chan (j `mod` 4)
               (px ((j `div` 4) `mod` w) ((j `div` 4) `div` w))))
  else sample out j.
Proof.
  intros Hw Hx0 Hx1. rewrite raster_loop_grid, sample_grid_writes; [|done|].
  - destruct (decide (0 ≤ j < len out ∧ y0 ≤ (j `div` 4) `div` w < y1
                      ∧ x0 ≤ (j `div` 4) `mod` w < x1)) as [(Hl & Hy & Hx)|Hn].
    + rewrite decide_True; [done|].
      split; [done|]. split; apply elem_of_seqZ; lia.
    + rewrite decide_False; [done|]. intros (Hl & Hy & Hx).
      apply elem_of_seqZ in Hy, Hx. apply Hn. lia.
  - intros x Hx. apply elem_of_seqZ in Hx. lia.
Qed.

Lemma raster_loop_ext w x0 x1 y0 y1 px1 px2 out :
  (∀ x y, px1 x y = px2 x y) →
  raster_loop w x0 x1 y0 y1 px1 out = raster_loop w x0 x1 y0 y1 px2 out.
Proof.
  intros H. unfold raster_loop, for_range.
  apply foldl_ext_in. intros acc y _.
  apply foldl_ext_in. intros acc' x _. by rewrite H.
Qed.

(** Pixel coordinates of sample [(y * w + x) * 4 + c]. *)
Lemma sample_coords w x y c :
  0 < w → 0 ≤ x < w → 0 ≤ c < 4 →
  let j := (y * w + x) * 4 + c in
  j `div` 4 = y * w + x ∧ j `mod` 4 = c
  ∧ (j `div` 4) `div` w = y ∧ (j `div` 4) `mod` w = x.
Proof.
  intros Hw Hx Hc j.
  assert (j `div` 4 = y * w + x) as Hk.
  { symmetry. apply (Z.div_unique j 4 (y * w + x) c); subst j; lia. }
  assert (j `mod` 4 = c) as Hm.
  { symmetry. apply (Z.mod_unique j 4 (y * w + x) c); subst j; lia. }
  rewrite Hk. repeat split; [done| |].
  - symmetry. apply (Z.div_unique (y * w + x) w y x); lia.
  - symmetry. apply (Z.mod_unique (y * w + x) w y x); lia.
Qed.

Lemma sample_in_grid w h x y c :
  0 ≤ x < w → 0 ≤ y < h → 0 ≤ c < 4 →
  0 ≤ (y * w + x) * 4 + c < w * h * 4.
Proof. intros. nia. Qed.

(** ** The filters as instances of [raster_filter] *)

Lemma apply_filter_raster f img :
  apply_filter f img = raster_filter (radius f) (kernel f) img.
Proof.
  destruct f; try reflexivity.
  unfold raster_filter. simpl radius. by rewrite !Z.sub_0_r.
Qed.

Lemma radius_nonneg f : 0 ≤ radius f.
Proof. destruct f; vm_compute; discriminate. Qed.

Section RasterFilter.
Variables (r : Z) (px : ImageData → Z → Z → pixel) (img : ImageData).
Hypothesis r_nonneg : 0 ≤ r.
Hypotheses (w_pos : 0 < width img) (h_pos : 0 < height img).

Lemma raster_filter_returns : raster_filter r px img = Some (filtered r px img).
  Proof.
    unfold raster_filter, newImageData.
    destruct (Z.leb_spec (width img) 0); [lia|].
    destruct (Z.leb_spec (height img) 0); [lia|]. done.
  Qed.

Lemma len_filtered : len (data (filtered r px img)) = width img * height img * 4.
  Proof.
    unfold filtered. simpl. rewrite len_raster_loop. unfold len.
    rewrite length_replicate. nia.
  Qed.

Lemma sample_at_filtered_inside x y c :
    r ≤ x < width img - r → r ≤ y < height img - r → 0 ≤ c < 4 →
    sample_at (filtered r px img) x y c = Some (ToUint8Clamp (chan c (px img x y))).
  Proof.
    intros Hx Hy Hc. unfold sample_at, filtered. simpl.
    rewrite sample_raster_loop by lia.
    destruct (sample_coords (width img) x y c) as (Hk & Hm & Hd & Hr); [lia..|].
    pose proof (sample_in_grid (width img) (height img) x y c) as Hg.
    rewrite Hm, Hd, Hr. rewrite decide_True; [done|].
    unfold len. rewrite length_replicate. lia.
  Qed.

Lemma sample_at_filtered_outside x y c :
    0 ≤ x < width img → 0 ≤ y < height img → 0 ≤ c < 4 →
    ¬ (r ≤ x < width img - r ∧ r ≤ y < height img - r) →
    sample_at (filtered r px img) x y c = Some 0.
  Proof.
    intros Hx Hy Hc Hout. unfold sample_at, filtered. simpl.
    rewrite sample_raster_loop by lia.
    destruct (sample_coords (width img) x y c) as (Hk & Hm & Hd & Hr); [lia..|].
    pose proof (sample_in_grid (width img) (height img) x y c) as Hg.
    rewrite Hd, Hr. rewrite decide_False by lia.
    rewrite sample_replicate. rewrite decide_True; [done|]. lia.
  Qed.

Lemma pixel_at_filtered_inside x y :
    r ≤ x < width img - r → r ≤ y < height img - r →
    pixel_at (filtered r px img) x y = Some (clamp_pixel (px img x y)).
  Proof.
    intros Hx Hy. unfold pixel_at.
    rewrite !sample_at_filtered_inside by lia. done.
  Qed.

Lemma pixel_at_filtered_outside x y :
    0 ≤ x < width img → 0 ≤ y < height img →
    ¬ (r ≤ x < width img - r ∧ r ≤ y < height img - r) →
    pixel_at (filtered r px img) x y = Some (0, 0, 0, 0).
  Proof.
    intros Hx Hy Hout. unfold pixel_at.
    rewrite !sample_at_filtered_outside by (done || lia). done.
  Qed.
End RasterFilter.

(** ** Checking concrete inputs *)

Lemma wf_imageb_sound img : wf_imageb img = true → wf_image img.
Proof.
  unfold wf_imageb. rewrite !andb_true_iff, forallb_forall.
  intros [[[Hw Hh] Hl] Hb]. split.
  - by apply Z.ltb_lt.
  - by apply Z.ltb_lt.
  - by apply Z.eqb_eq.
  - apply Forall_forall. intros b Hin. apply list_elem_of_In, Hb in Hin.
    apply andb_true_iff in Hin as [H0 H255].
    apply Z.leb_le in H0, H255. done.
Qed.

Lemma agree_onb_sound keep d1 d2 :
  agree_onb keep d1 d2 = true →
  ∀ i, keep i = true → sample d1 i = sample d2 i.
Proof.
  unfold agree_onb. rewrite andb_true_iff, forallb_forall.
  intros [Hl Hall] i Hk. apply Z.eqb_eq in Hl.
  destruct (decide (0 ≤ i < len d1)) as [Hin|Hout].
  - assert (i ∈ seqZ 0 (len d1)) as Hi by (apply elem_of_seqZ; lia).
    apply list_elem_of_In, Hall in Hi. rewrite Hk in Hi. simpl in Hi.
    by apply bool_decide_eq_true in Hi.
  - unfold sample. destruct (Z.ltb_spec i 0); [done|].
    rewrite !(lookup_ge_None_2) by (unfold len in *; lia). done.
Qed.

Lemma rgb_agreeb_sound d1 d2 :
  agree_onb (λ i, negb (i `mod` 4 =? 3)) d1 d2 = true → rgb_agree d1 d2.
Proof.
  intros H i Hi. apply (agree_onb_sound _ _ _ H).
  apply negb_true_iff, Z.eqb_neq, Hi.
Qed.

(** ** Shape of the output *)

Lemma apply_filter_returns f img :
  wf_image img → apply_filter f img = Some (filtered (radius f) (kernel f) img).
Proof.
  intros [Hw Hh _ _]. rewrite apply_filter_raster.
  by apply raster_filter_returns.
Qed.

(** C8: every filter returns a raster with the input's width and height
    (and hence with four samples for each of its pixels). *)
Theorem output_dimensions (f : Filter) (img : ImageData) :
  wf_image img →
  ∃ out, apply_filter f img = Some out
         ∧ width out = width img ∧ height out = height img
         ∧ len (data out) = width img * height img * 4.
Proof.
  intros Hwf. exists (filtered (radius f) (kernel f) img).
  split; [by apply apply_filter_returns|].
  split; [done|]. split; [done|].
  apply len_filtered; first [apply radius_nonneg | apply Hwf].
Qed.

Lemma alpha_stored : ToUint8Clamp 255%float = 255.
Proof. vm_compute. reflexivity. Qed.

Lemma kernel_alpha f img x y : pa (kernel f img x y) = 255%float.
Proof.
  destruct f; reflexivity.
Qed.

Lemma sample_at_output f img x y c :
  wf_image img → in_grid img x y → 0 ≤ c < 4 →
  sample_at (filtered (radius f) (kernel f) img) x y c
  = if decide (visited (radius f) img x y)
    then Some (ToUint8Clamp (chan c (kernel f img x y)))
    else Some 0.
Proof.
  intros [Hw Hh _ _] [Hx Hy] Hc. pose proof (radius_nonneg f).
  case_decide as Hv.
  - destruct Hv. by apply sample_at_filtered_inside.
  - by apply sample_at_filtered_outside.
Qed.

Lemma pixel_at_output f img x y :
  wf_image img → in_grid img x y →
  pixel_at (filtered (radius f) (kernel f) img) x y
  = if decide (visited (radius f) img x y)
    then Some (clamp_pixel (kernel f img x y))
    else Some (0, 0, 0, 0).
Proof.
  intros Hwf Hg. unfold pixel_at. rewrite !sample_at_output by (done || lia).
  by case_decide.
Qed.

(** ** Degenerate images *)

Lemma filtered_degenerate r px img :
  0 < width img → 0 < height img →
  width img < 2 * r ∨ height img < 2 * r →
  data (filtered r px img) = replicate (Z.to_nat (width img * height img * 4)) 0.
Proof.
  intros Hw Hh Hsmall. unfold filtered. simpl.
  unfold raster_loop, for_range.
  destruct Hsmall as [Hs|Hs].
  - assert (seqZ r (width img - r - r) = []) as -> by (apply seqZ_nil; lia).
    simpl. generalize (replicate (Z.to_nat (width img * height img * 4)) 0).
    induction (seqZ r (height img - r - r)) as [|y ys IH]; intros out; simpl; [done|].
    apply IH.
  - by assert (seqZ r (height img - r - r) = []) as -> by (apply seqZ_nil; lia).
Qed.

(** C9: on an image narrower or lower than twice its border radius a filter
    still returns, and the raster it returns has the input's dimensions and
    only zero-initialized samples. *)
Theorem degenerate_output (f : Filter) (img : ImageData) :
  wf_image img →
  width img < 2 * radius f ∨ height img < 2 * radius f →
  ∃ out, apply_filter f img = Some out
         ∧ width out = width img ∧ height out = height img
         ∧ data out = replicate (Z.to_nat (width img * height img * 4)) 0
         ∧ ∀ x y, in_grid img x y → pixel_at out x y = Some (0, 0, 0, 0).
Proof.
  intros Hwf Hsmall. exists (filtered (radius f) (kernel f) img).
  split; [by apply apply_filter_returns|].
  split; [done|]. split; [done|]. split.
  - apply filtered_degenerate; [apply Hwf..|done].
  - intros x y Hg. rewrite pixel_at_output by done.
    rewrite decide_False; [done|]. unfold visited. lia.
Qed.

(** ** Border policy *)

(** C7: Edge, Texture and Lighting leave the border ring (of width 1, 2 and
    1) at the zero-initialized value whatever the input holds, while Color
    stores a computed, opaque pixel at every position of the grid. *)
Theorem border_policy (img : ImageData) :
  wf_image img →
  (∃ out, generateEdgeDetection img = Some out
          ∧ ∀ x y, border_ring 1 img x y → pixel_at out x y = Some (0, 0, 0, 0))
  ∧ (∃ out, generateTextureAnalysis img = Some out
          ∧ ∀ x y, border_ring 2 img x y → pixel_at out x y = Some (0, 0, 0, 0))
  ∧ (∃ out, generateLightingAnalysis img = Some out
          ∧ ∀ x y, border_ring 1 img x y → pixel_at out x y = Some (0, 0, 0, 0))
  ∧ (∃ out, generateColorDistribution img = Some out
          ∧ ∀ x y, in_grid img x y →
              pixel_at out x y = Some (clamp_pixel (color_pixel img x y))
              ∧ sample_at out x y 3 = Some 255).
Proof.
  intros Hwf.
  assert (∀ f r, radius f = r → 0 < r →
            ∃ out, apply_filter f img = Some out
                   ∧ ∀ x y, border_ring r img x y →
                            pixel_at out x y = Some (0, 0, 0, 0)) as Hring.
  { intros f r Hr Hpos. exists (filtered (radius f) (kernel f) img).
    split; [by apply apply_filter_returns|].
    intros x y [Hg Hb]. rewrite pixel_at_output by done.
    rewrite decide_False; [done|]. unfold visited. lia. }
  split; [apply (Hring Edge 1); [done|lia]|].
  split; [apply (Hring Texture 2); [done|lia]|].
  split; [apply (Hring Lighting 1); [done|lia]|].
  exists (filtered (radius Color) (kernel Color) img).
  split; [by apply (apply_filter_returns Color)|].
  intros x y Hg.
  assert (visited (radius Color) img x y) as Hv.
  { destruct Hg. unfold visited. simpl. lia. }
  split.
  - rewrite pixel_at_output by done. by rewrite decide_True.
  - rewrite sample_at_output by (done || lia). rewrite decide_True by done.
    by rewrite <- alpha_stored.
Qed.

(** ** Alpha channel of the output *)

(** C1, as the code has it: a filter stores alpha 255 at the positions its
    loops visit, which is the whole grid for Color only; the border ring
    that Edge, Texture and Lighting skip keeps the alpha 0 it was
    allocated with. *)
Theorem output_alpha (f : Filter) (img : ImageData) :
  wf_image img →
  ∃ out, apply_filter f img = Some out
         ∧ ∀ x y, in_grid img x y →
             sample_at out x y 3
             = Some (if decide (visited (radius f) img x y) then 255 else 0).
Proof.
  intros Hwf. exists (filtered (radius f) (kernel f) img).
  split; [by apply apply_filter_returns|].
  intros x y Hg. rewrite sample_at_output by (done || lia).
  case_decide; [|done].
  change (chan 3 (kernel f img x y)) with (pa (kernel f img x y)).
  by rewrite kernel_alpha, alpha_stored.
Qed.

(** ** The input's alpha channel is never read *)

Lemma load_agree_on (P : Z → Prop) d1 d2 i :
  (∀ i, P i → sample d1 i = sample d2 i) → P i → load d1 i = load d2 i.
Proof. intros H Hi. by rewrite !load_sample, (H i Hi). Qed.

Section AlphaBlind.
Variables img1 img2 : ImageData.
Hypothesis same_width : width img1 = width img2.
Hypothesis same_height : height img1 = height img2.

Lemma raster_filter_agree r px :
    (∀ x y, px img1 x y = px img2 x y) →
    raster_filter r px img1 = raster_filter r px img2.
  Proof.
    intros H. unfold raster_filter. rewrite same_width, same_height.
    destruct (newImageData (width img2) (height img2)) as [o|];
      cbn [mbind option_bind]; [|reflexivity].
    rewrite (raster_loop_ext _ _ _ _ _ (px img1) (px img2) _ H). reflexivity.
  Qed.

Section Red.
Hypothesis agree : red_agree (data img1) (data img2).

Lemma load_red k : load (data img1) (k * 4) = load (data img2) (k * 4).
    Proof. apply (load_agree_on _ _ _ _ agree). apply Z.mod_mul. lia. Qed.

Lemma edge_pixel_agree x y : edge_pixel img1 x y = edge_pixel img2 x y.
    Proof.
      unfold edge_pixel, edge_gx, edge_gy. rewrite same_width.
      by rewrite !load_red.
    Qed.
End Red.

Section Rgb.
Hypothesis agree : rgb_agree (data img1) (data img2).

Lemma rgb_red_agree : red_agree (data img1) (data img2).
    Proof. intros i Hi. apply agree. lia. Qed.

Lemma load_r k : load (data img1) (k * 4) = load (data img2) (k * 4).
    Proof. apply load_red, rgb_red_agree. Qed.

Lemma load_g k : load (data img1) (k * 4 + 1) = load (data img2) (k * 4 + 1).
    Proof.
      apply (load_agree_on _ _ _ _ agree).
      rewrite Z.add_comm, Z.mod_add by lia. by vm_compute.
    Qed.

Lemma load_b k : load (data img1) (k * 4 + 2) = load (data img2) (k * 4 + 2).
    Proof.
      apply (load_agree_on _ _ _ _ agree).
      rewrite Z.add_comm, Z.mod_add by lia. by vm_compute.
    Qed.

Lemma texture_pixel_agree x y : texture_pixel img1 x y = texture_pixel img2 x y.
    Proof.
      assert (texture_sum_count img1 x y = texture_sum_count img2 x y) as Hsc.
      { unfold texture_sum_count, for_range. rewrite same_width.
        apply foldl_ext_in. intros acc dy _.
        apply foldl_ext_in. intros [sum count] dx _.
        by rewrite load_r, load_g, load_b. }
      assert (∀ mean, texture_variance_sum img1 x y mean
                      = texture_variance_sum img2 x y mean) as Hv.
      { intros mean. unfold texture_variance_sum, for_range. rewrite same_width.
        apply foldl_ext_in. intros acc dy _.
        apply foldl_ext_in. intros variance dx _.
        by rewrite load_r, load_g, load_b. }
      unfold texture_pixel, texture_value. rewrite Hsc.
      destruct (texture_sum_count img2 x y) as [sum count]. by rewrite Hv.
    Qed.

Lemma lighting_pixel_agree x y : lighting_pixel img1 x y = lighting_pixel img2 x y.
    Proof.
      unfold lighting_pixel. rewrite same_width.
      by rewrite !load_r, !load_g, !load_b.
    Qed.

Lemma color_pixel_agree x y : color_pixel img1 x y = color_pixel img2 x y.
    Proof.
      unfold color_pixel. rewrite same_width.
      by rewrite !load_r, !load_g, !load_b.
    Qed.

Lemma kernel_agree f x y : kernel f img1 x y = kernel f img2 x y.
    Proof.
      destruct f; simpl.
      - apply edge_pixel_agree, rgb_red_agree.
      - apply texture_pixel_agree.
      - apply lighting_pixel_agree.
      - apply color_pixel_agree.
    Qed.
End Rgb.
End AlphaBlind.

(** C10: two inputs of equal dimensions whose sample arrays agree outside
    the alpha channel give the same output under every filter; for Edge it
    is enough that they agree on the red channel. *)
Theorem alpha_independence (img1 img2 : ImageData) :
  width img1 = width img2 → height img1 = height img2 →
  (rgb_agree (data img1) (data img2) →
   ∀ f, apply_filter f img1 = apply_filter f img2)
  ∧ (red_agree (data img1) (data img2) →
     generateEdgeDetection img1 = generateEdgeDetection img2).
Proof.
  intros Hw Hh. split.
  - intros Hrgb f. rewrite !apply_filter_raster.
    apply raster_filter_agree; [done..|].
    intros x y. by apply kernel_agree.
  - intros Hred. rewrite !(apply_filter_raster Edge).
    apply raster_filter_agree; [done..|].
    intros x y. by apply edge_pixel_agree.
Qed.

(** ** Facts of binary64 arithmetic *)

Lemma float_mul_comm (a b : number) : (a * b)%float = (b * a)%float.
Proof.
  apply Prim2SF_inj. rewrite !mul_spec. unfold SF64mul, SFmul.
  destruct (Prim2SF a) as [sa|sa| |sa ma ea], (Prim2SF b) as [sb|sb| |sb mb eb];
    rewrite ?(xorb_comm sa sb), ?(Pos.mul_comm ma mb), ?(Z.add_comm ea eb);
    reflexivity.
Qed.

Lemma float_neq_by (obs : number → bool) (a b : number) :
  obs a ≠ obs b → a ≠ b.
Proof. intros H ->. by apply H. Qed.

Lemma forall_bytes (P : Z → bool) :
  forallb P (seqZ 0 256) = true → ∀ v, 0 ≤ v ≤ 255 → P v = true.
Proof.
  intros H v Hv. rewrite forallb_forall in H. apply H.
  apply list_elem_of_In, elem_of_seqZ. lia.
Qed.

Lemma sample_byte img i v :
  wf_image img → sample (data img) i = Some v → 0 ≤ v ≤ 255.
Proof.
  intros [_ _ _ Hb] Hs. unfold sample in Hs.
  destruct (i <? 0); [done|].
  by apply (Forall_lookup_1 _ _ _ _ Hb Hs).
Qed.

Lemma load_of_sample arr i v : sample arr i = Some v → load arr i = ofByte v.
Proof. intros H. by rewrite load_sample, H. Qed.

(** ** A gray pixel under the Color filter *)

Lemma gray_values v :
  0 ≤ v ≤ 255 →
  saturation_of (ofByte v) (ofByte v) (ofByte v) = 0%float
  ∧ colorUniformity_of (ofByte v) (ofByte v) (ofByte v) = 1%float
  ∧ artificialness_of (ofByte v) (ofByte v) (ofByte v) = 255%float.
Proof.
  intros Hv.
  assert (gray_checkb v = true) as H.
  { apply forall_bytes; [|done]. vm_compute. reflexivity. }
  unfold gray_checkb in H. cbv zeta in H.
  apply andb_true_iff in H as [H Ha]. apply andb_true_iff in H as [Hs Hu].
  apply FloatAxioms.Leibniz.eqb_spec in Hs, Hu, Ha. done.
Qed.

(** C6: at a pure gray pixel (R = G = B) the Color filter computes
    colorUniformity = 1, which passes the 0.9 threshold although the
    saturation (0) does not pass its own, so artificialness is 255; the pixel
    stored is the blend of the gray level with 255. *)
Theorem gray_pixel_artificialness (img : ImageData) (x y v : Z) :
  wf_image img → in_grid img x y →
  sample_at img x y 0 = Some v →
  sample_at img x y 1 = Some v →
  sample_at img x y 2 = Some v →
  let r := ofByte v in
  colorUniformity_of r r r = 1%float
  ∧ (0.9 <? colorUniformity_of r r r)%float = true
  ∧ (0.8 <? saturation_of r r r)%float = false
  ∧ artificialness_of r r r = 255%float
  ∧ ∃ out, generateColorDistribution img = Some out
           ∧ pixel_at out x y
             = Some (clamp_pixel (Px (r * 0.3 + 255 * 0.7)%float
                                     (r * 0.3 + 255 * 0.5)%float
                                     (r * 0.3 + 255 * 0.3)%float
                                     255%float)).
Proof.
  intros Hwf Hg HR HG HB r.
  pose proof (sample_byte _ _ _ Hwf HR) as Hv.
  destruct (gray_values v Hv) as (Hs & Hu & Ha). fold r in Hs, Hu, Ha.
  split; [done|]. split; [by rewrite Hu|]. split; [by rewrite Hs|].
  split; [done|].
  exists (filtered (radius Color) (kernel Color) img).
  split; [by apply (apply_filter_returns Color)|].
  rewrite pixel_at_output by done.
  rewrite decide_True by (destruct Hg; unfold visited; simpl; lia).
  do 2 f_equal. simpl kernel. unfold color_pixel.
  unfold sample_at in HR, HG, HB. rewrite Z.add_0_r in HR.
  rewrite (load_of_sample _ _ _ HR), (load_of_sample _ _ _ HG),
    (load_of_sample _ _ _ HB).
  fold r. by rewrite Ha.
Qed.

(** ** The kernels compute the formulas *)

Lemma lighting_pixel_spec img x y : lighting_pixel img x y = Spec.lighting img x y.
Proof.
  unfold lighting_pixel, Spec.lighting, Spec.enhanced, Spec.luminance,
    Spec.red, Spec.green, Spec.blue.
  cbv zeta.
  rewrite (float_mul_comm 0.5%float), (float_mul_comm 0.5%float),
    (float_mul_comm 0.3%float), (float_mul_comm 2%float).
  reflexivity.
Qed.

Lemma texture_pixel_spec img x y : texture_pixel img x y = Spec.texture img x y.
Proof.
  unfold texture_pixel, Spec.texture. cbv zeta.
  assert (texture_value img x y
          = Math_min 255%float (Math_sqrt (Spec.variance img x y) * 3)%float) as ->;
    [|reflexivity].
  unfold texture_value.
  assert (texture_sum_count img x y
          = (Spec.total ((λ p, Spec.gray img p.1 p.2) <$> Spec.window x y), 25%float))
    as -> by reflexivity.
  reflexivity.
Qed.

(** ** The example inputs are well formed *)

Lemma wf_img1 : wf_image img1.
Proof. apply wf_imageb_sound. vm_compute. reflexivity. Qed.

Lemma wf_img3 : wf_image img3.
Proof. apply wf_imageb_sound. vm_compute. reflexivity. Qed.

Lemma wf_img5 : wf_image img5.
Proof. apply wf_imageb_sound. vm_compute. reflexivity. Qed.

(** ** Lighting filter: interior pixels *)

(** C5, as the code has it: at an interior pixel the Lighting filter stores
    the bytes that the conversion of the clamped array (nearest integer, ties
    to even) gives for 0.5 luminance + 0.5 enhanced, enhanced, 0.3 luminance
    and 255, all computed in double precision. *)
Theorem lighting_interior (img : ImageData) (x y : Z) :
  wf_image img →
  1 ≤ x < width img - 1 → 1 ≤ y < height img - 1 →
  ∃ out, generateLightingAnalysis img = Some out
         ∧ pixel_at out x y = Some (clamp_pixel (Spec.lighting img x y))
         ∧ sample_at out x y 3 = Some 255.
Proof.
  intros Hwf Hx Hy.
  exists (filtered (radius Lighting) (kernel Lighting) img).
  split; [by apply (apply_filter_returns Lighting)|].
  assert (in_grid img x y) as Hg by (unfold in_grid; lia).
  assert (visited (radius Lighting) img x y) as Hv by (unfold visited; simpl; lia).
  split.
  - rewrite pixel_at_output by done. rewrite decide_True by done.
    simpl kernel. by rewrite lighting_pixel_spec.
  - rewrite sample_at_output by (done || lia). rewrite decide_True by done.
    by rewrite <- alpha_stored.
Qed.

(** ** Texture filter: pixels with a full window *)

(** C4, as the code has it: where the 5×5 window fits, the Texture filter
    stores the bytes that the conversion of the clamped array gives for t,
    0.8 t, 0.6 t and 255, with t = min(255, 3 sqrt(variance)) computed in
    double precision over the window taken row by row. *)
Theorem texture_full_window (img : ImageData) (x y : Z) :
  wf_image img →
  2 ≤ x < width img - 2 → 2 ≤ y < height img - 2 →
  ∃ out, generateTextureAnalysis img = Some out
         ∧ pixel_at out x y = Some (clamp_pixel (Spec.texture img x y))
         ∧ sample_at out x y 3 = Some 255.
Proof.
  intros Hwf Hx Hy.
  exists (filtered (radius Texture) (kernel Texture) img).
  split; [by apply (apply_filter_returns Texture)|].
  assert (in_grid img x y) as Hg by (unfold in_grid; lia).
  assert (visited (radius Texture) img x y) as Hv.
  { unfold visited. change (radius Texture) with 2. lia. }
  split.
  - rewrite pixel_at_output by done. rewrite decide_True by done.
    simpl kernel. by rewrite texture_pixel_spec.
  - rewrite sample_at_output by (done || lia). rewrite decide_True by done.
    by rewrite <- alpha_stored.
Qed.

(** ** View aggregator *)

(** C2, on the code: when the source cannot be decoded the promise is
    neither rejected nor fulfilled; it stays pending for ever, so the caller
    gets no partial result and no error either. *)
Theorem decode_failure_never_settles {DataURL : Type}
    (toDataURL : ImageData → DataURL) :
  generateAnalyticalViews toDataURL true ErrorEvent = Pending.
Proof. reflexivity. Qed.

(** ** Small integers in binary64: the arithmetic of the Edge filter is exact *)

Lemma to_Z_of_Z_small z : 0 ≤ z < 2 ^ 62 → int_to_Z (int_of z) = z.
Proof.
  intros Hz. rewrite Uint63.of_Z_spec. apply Z.mod_small.
  change Uint63.wB with (2 ^ 63). lia.
Qed.

Lemma of_Z_add a b : int_of (a + b) = Uint63.add (int_of a) (int_of b).
Proof.
  apply Uint63.to_Z_inj. rewrite Uint63.add_spec, !Uint63.of_Z_spec.
  by rewrite <- Zplus_mod.
Qed.

Lemma of_Z_sub a b : int_of (a - b) = Uint63.sub (int_of a) (int_of b).
Proof.
  apply Uint63.to_Z_inj. rewrite Uint63.sub_spec, !Uint63.of_Z_spec.
  by rewrite <- Zminus_mod.
Qed.

Lemma of_Z_mul a b : int_of (a * b) = Uint63.mul (int_of a) (int_of b).
Proof.
  apply Uint63.to_Z_inj. rewrite Uint63.mul_spec, !Uint63.of_Z_spec.
  by rewrite <- Zmult_mod.
Qed.

Lemma all_from_sound n P s :
  all_from n (int_of s) P = true →
  ∀ z, s ≤ z < s + Z.of_nat n → P (int_of z) = true.
Proof.
  revert s. induction n as [|n IH]; intros s H z Hz; [lia|].
  simpl in H. apply andb_true_iff in H as [Hc Hrest].
  destruct (decide (z = s)) as [->|Hne]; [done|].
  apply (IH (s + 1)); [|lia].
  by rewrite of_Z_add.
Qed.

Lemma table2_sound na nb P :
  table2 na nb P = true →
  ∀ x y, 0 ≤ x < Z.of_nat na → 0 ≤ y < Z.of_nat nb → P (int_of x) (int_of y) = true.
Proof.
  intros H x y Hx Hy. unfold table2 in H.
  pose proof (all_from_sound na _ 0 H x ltac:(lia)) as Hrow.
  exact (all_from_sound nb _ 0 Hrow y ltac:(lia)).
Qed.

Lemma ofCode_ofZ o off z :
  o = int_of off → 0 ≤ off < 2 ^ 61 → - off ≤ z < 2 ^ 61 →
  ofCode o (int_of (z + off)) = ofZ z.
Proof.
  intros -> Hoff Hz. unfold ofCode, ofZ, ofByte.
  destruct (Z.ltb_spec z 0) as [Hneg|Hpos].
  - assert (Uint63.ltb (int_of (z + off)) (int_of off) = true) as ->.
    { apply Uint63.ltb_spec. rewrite !to_Z_of_Z_small by lia. lia. }
    rewrite <- of_Z_sub. do 3 f_equal. lia.
  - assert (Uint63.ltb (int_of (z + off)) (int_of off) = false) as ->.
    { apply not_true_is_false. intros H. apply Uint63.ltb_spec in H.
      rewrite !to_Z_of_Z_small in H by lia. lia. }
    rewrite <- of_Z_sub. do 2 f_equal. lia.
Qed.

Lemma add_table : table2 2041 1021 add_checkb = true.
Proof. vm_compute. reflexivity. Qed.

Lemma float_add_exact a b :
  -1020 ≤ a ≤ 1020 → -510 ≤ b ≤ 510 → (ofZ a + ofZ b)%float = ofZ (a + b).
Proof.
  intros Ha Hb.
  pose proof (table2_sound _ _ _ add_table (a + 1020) (b + 510) ltac:(lia) ltac:(lia)) as H.
  unfold add_checkb in H. apply FloatAxioms.Leibniz.eqb_spec in H.
  rewrite <- of_Z_add in H.
  rewrite (ofCode_ofZ _ 1020 a), (ofCode_ofZ _ 510 b) in H by (reflexivity || lia).
  replace (a + 1020 + (b + 510)) with ((a + b) + 1530) in H by lia.
  rewrite (ofCode_ofZ _ 1530 (a + b)) in H by (reflexivity || lia). done.
Qed.

Lemma sub_table : table2 2041 1021 sub_checkb = true.
Proof. vm_compute. reflexivity. Qed.

Lemma float_sub_exact a b :
  -1020 ≤ a ≤ 1020 → -510 ≤ b ≤ 510 → (ofZ a - ofZ b)%float = ofZ (a - b).
Proof.
  intros Ha Hb.
  pose proof (table2_sound _ _ _ sub_table (a + 1020) (b + 510) ltac:(lia) ltac:(lia)) as H.
  unfold sub_checkb in H. apply FloatAxioms.Leibniz.eqb_spec in H.
  rewrite (ofCode_ofZ _ 1020 a), (ofCode_ofZ _ 510 b) in H by (reflexivity || lia).
  change (Uint63.add (int_of (a + 1020)) 1020%uint63)
    with (Uint63.add (int_of (a + 1020)) (int_of 1020)) in H.
  rewrite <- of_Z_add, <- of_Z_sub in H.
  replace (a + 1020 + 1020 - (b + 510)) with ((a - b) + 1530) in H by lia.
  rewrite (ofCode_ofZ _ 1530 (a - b)) in H by (reflexivity || lia). done.
Qed.

Lemma mul2_table : all_from 511 0%uint63 mul2_checkb = true.
Proof. vm_compute. reflexivity. Qed.

Lemma float_double_exact b :
  -255 ≤ b ≤ 255 → (2 * ofZ b)%float = ofZ (2 * b).
Proof.
  intros Hb.
  pose proof (all_from_sound _ _ 0 mul2_table (b + 255) ltac:(lia)) as H.
  unfold mul2_checkb in H. apply FloatAxioms.Leibniz.eqb_spec in H.
  rewrite (ofCode_ofZ _ 255 b) in H by (reflexivity || lia).
  change 2%uint63 with (int_of 2) in H. rewrite <- of_Z_mul in H.
  replace (2 * (b + 255)) with (2 * b + 510) in H by lia.
  rewrite (ofCode_ofZ _ 510 (2 * b)) in H by (reflexivity || lia). done.
Qed.

Lemma square_table : all_from 2041 0%uint63 square_checkb = true.
Proof. vm_compute. reflexivity. Qed.

Lemma float_square_exact g :
  -1020 ≤ g ≤ 1020 → (ofZ g * ofZ g)%float = ofZ (g * g).
Proof.
  intros Hg.
  pose proof (all_from_sound _ _ 0 square_table (g + 1020) ltac:(lia)) as H.
  unfold square_checkb in H. apply FloatAxioms.Leibniz.eqb_spec in H.
  rewrite (ofCode_ofZ _ 1020 g) in H by (reflexivity || lia).
  change 1020%uint63 with (int_of 1020) in H.
  rewrite <- of_Z_sub, <- of_Z_mul in H.
  replace (g + 1020 - 1020) with g in H by lia.
  rewrite H. unfold ofZ, ofByte.
  destruct (Z.ltb_spec (g * g) 0); [nia|done].
Qed.

Lemma sumsq_table : table2 1021 1021 sumsq_checkb = true.
Proof. vm_compute. reflexivity. Qed.

Lemma ofZ_nonneg z : 0 ≤ z → ofZ z = of_uint63 (int_of z).
Proof. intros Hz. unfold ofZ, ofByte. destruct (Z.ltb_spec z 0); [lia|done]. Qed.

Lemma float_sum_squares_exact g h :
  -1020 ≤ g ≤ 1020 → -1020 ≤ h ≤ 1020 →
  (ofZ (g * g) + ofZ (h * h))%float = ofZ (g * g + h * h).
Proof.
  intros Hg Hh.
  pose proof (table2_sound _ _ _ sumsq_table (Z.abs g) (Z.abs h) ltac:(lia) ltac:(lia)) as H.
  unfold sumsq_checkb in H. apply FloatAxioms.Leibniz.eqb_spec in H.
  rewrite <- !of_Z_mul, <- of_Z_add in H.
  rewrite !ofZ_nonneg by nia.
  replace (g * g) with (Z.abs g * Z.abs g) by lia.
  replace (h * h) with (Z.abs h * Z.abs h) by lia. done.
Qed.

Lemma big_table : table2 985 2048 big_checkb = true.
Proof. vm_compute. reflexivity. Qed.

Lemma clamped_sqrt_big n :
  65280 < n ≤ 2080800 → Math_min 255%float (Math_sqrt (ofZ n)) = 255%float.
Proof.
  intros Hn.
  pose proof (Z.div_mod (n - 65281) 2048 ltac:(lia)) as Hdm.
  pose proof (Z.mod_pos_bound (n - 65281) 2048 ltac:(lia)) as Hmb.
  pose proof (table2_sound _ _ _ big_table ((n - 65281) `div` 2048)
                ((n - 65281) `mod` 2048) ltac:(lia) ltac:(lia)) as H.
  unfold big_checkb in H. apply FloatAxioms.Leibniz.eqb_spec in H.
  change 2048%uint63 with (int_of 2048) in H.
  change 65281%uint63 with (int_of 65281) in H.
  rewrite <- of_Z_mul, <- !of_Z_add in H.
  rewrite ofZ_nonneg by lia.
  replace n with (65281 + (2048 * ((n - 65281) `div` 2048) + (n - 65281) `mod` 2048))
    at 1 by lia.
  done.
Qed.

Lemma allZ_from_sound n P s :
  allZ_from n s P = true → ∀ z, s ≤ z < s + Z.of_nat n → P z = true.
Proof.
  revert s. induction n as [|n IH]; intros s H z Hz; [lia|].
  simpl in H. apply andb_true_iff in H as [Hc Hrest].
  destruct (decide (z = s)) as [->|Hne]; [done|].
  apply (IH (s + 1)); [done|lia].
Qed.

Lemma small_table :
  allZ_from 256 0 (λ i, allZ_from 256 0 (λ j, small_checkb (256 * i + j))) = true.
Proof. vm_compute. reflexivity. Qed.

Lemma clamped_sqrt_small n :
  0 ≤ n < 65536 →
  ToUint8Clamp (Math_min 255%float (Math_sqrt (ofZ n))) = Z.min 255 (nearest_sqrt n).
Proof.
  intros Hn.
  pose proof (Z.div_mod n 256 ltac:(lia)) as Hdm.
  pose proof (Z.mod_pos_bound n 256 ltac:(lia)) as Hmb.
  pose proof (allZ_from_sound _ _ 0 small_table (n `div` 256) ltac:(lia)) as Hrow.
  cbv beta in Hrow.
  pose proof (allZ_from_sound _ _ 0 Hrow (n `mod` 256) ltac:(lia)) as H.
  cbv beta in H. rewrite <- Hdm in H. by apply Z.eqb_eq in H.
Qed.

Lemma nearest_sqrt_spec n :
  0 ≤ n →
  0 ≤ nearest_sqrt n
  ∧ n ≤ nearest_sqrt n * nearest_sqrt n + nearest_sqrt n
  ∧ (n = 0 ∨ nearest_sqrt n * nearest_sqrt n - nearest_sqrt n < n).
Proof.
  intros Hn. unfold nearest_sqrt.
  pose proof (Z.sqrt_spec n Hn) as Hs. pose proof (Z.sqrt_nonneg n) as H0.
  cbv zeta. set (s := Z.sqrt n) in *. unfold Z.succ in Hs.
  destruct (Z.leb_spec n (s * s + s)) as [Hle|Hgt].
  - split; [done|]. split; [done|].
    destruct (decide (s = 0)) as [Hz|Hz]; [left; nia|right; nia].
  - split; [lia|]. split; [nia|]. right. nia.
Qed.

Lemma nearest_sqrt_unique n r :
  0 ≤ r → n ≤ r * r + r → r * r - r < n → nearest_sqrt n = r.
Proof.
  intros Hr Hhi Hlo.
  assert (0 ≤ n) as Hn by nia.
  destruct (nearest_sqrt_spec n Hn) as (H0 & H1 & H2).
  destruct H2 as [->|H2]; [nia|]. nia.
Qed.

Lemma nearest_sqrt_big n : 255 * 255 ≤ n → 255 ≤ nearest_sqrt n.
Proof.
  intros Hn. destruct (nearest_sqrt_spec n ltac:(lia)) as (H0 & H1 & _). nia.
Qed.

Lemma clamped_sqrt_exact n :
  0 ≤ n ≤ 2080800 →
  ToUint8Clamp (Math_min 255%float (Math_sqrt (ofZ n))) = Z.min 255 (nearest_sqrt n).
Proof.
  intros Hn. destruct (decide (n < 65536)) as [Hs|Hb].
  - apply clamped_sqrt_small. lia.
  - rewrite clamped_sqrt_big by lia. rewrite alpha_stored.
    pose proof (nearest_sqrt_big n ltac:(lia)). lia.
Qed.

Lemma sobel_gx_exact a b c d e f :
  0 ≤ a ≤ 255 → 0 ≤ b ≤ 255 → 0 ≤ c ≤ 255 →
  0 ≤ d ≤ 255 → 0 ≤ e ≤ 255 → 0 ≤ f ≤ 255 →
  (ofZ a - ofZ b + 2 * (ofZ c - ofZ d) + ofZ e - ofZ f)%float
  = ofZ (a - b + 2 * (c - d) + e - f).
Proof.
  intros. rewrite !float_sub_exact by lia.
  rewrite float_double_exact by lia.
  rewrite !float_add_exact by lia.
  rewrite float_sub_exact by lia. done.
Qed.

Lemma sobel_gy_exact a b c d e f :
  0 ≤ a ≤ 255 → 0 ≤ b ≤ 255 → 0 ≤ c ≤ 255 →
  0 ≤ d ≤ 255 → 0 ≤ e ≤ 255 → 0 ≤ f ≤ 255 →
  (ofZ a + 2 * ofZ b + ofZ c - ofZ d - 2 * ofZ e - ofZ f)%float
  = ofZ (a + 2 * b + c - d - 2 * e - f).
Proof.
  intros. rewrite !float_double_exact by lia.
  rewrite !float_add_exact by lia.
  rewrite float_sub_exact by lia.
  rewrite float_sub_exact by lia.
  rewrite float_sub_exact by lia. done.
Qed.

Lemma magnitude_exact gx gy :
  -1020 ≤ gx ≤ 1020 → -1020 ≤ gy ≤ 1020 →
  ToUint8Clamp (Math_min 255%float
                  (Math_sqrt (ofZ gx * ofZ gx + ofZ gy * ofZ gy)%float))
  = Z.min 255 (nearest_sqrt (gx * gx + gy * gy)).
Proof.
  intros Hx Hy. rewrite !float_square_exact by lia.
  rewrite float_sum_squares_exact by lia.
  apply clamped_sqrt_exact. nia.
Qed.

(** ** Edge filter: interior pixels *)

Lemma sample_at_defined img x y c :
  wf_image img → in_grid img x y → 0 ≤ c < 4 →
  ∃ v, sample_at img x y c = Some v ∧ 0 ≤ v ≤ 255.
Proof.
  intros Hwf [Hx Hy] Hc.
  pose proof (sample_in_grid (width img) (height img) x y c Hx Hy Hc) as Hj.
  unfold sample_at, sample.
  destruct (Z.ltb_spec ((y * width img + x) * 4 + c) 0) as [|_]; [lia|].
  destruct (lookup_lt_is_Some_2 (data img) (Z.to_nat ((y * width img + x) * 4 + c)))
    as [v Hv].
  { pose proof (wf_length _ Hwf). lia. }
  exists v. split; [done|].
  by apply (Forall_lookup_1 _ _ _ _ (wf_bytes _ Hwf) Hv).
Qed.

Lemma load_red_exact img x y :
  wf_image img → in_grid img x y →
  load (data img) ((y * width img + x) * 4) = ofZ (SpecEdge.R img y x)
  ∧ 0 ≤ SpecEdge.R img y x ≤ 255.
Proof.
  intros Hwf Hg.
  destruct (sample_at_defined img x y 0 Hwf Hg ltac:(lia)) as (v & Hv & Hb).
  unfold SpecEdge.R. rewrite Hv. simpl. split; [|done].
  unfold sample_at in Hv. rewrite Z.add_0_r in Hv.
  rewrite (load_of_sample _ _ _ Hv). unfold ofZ.
  destruct (Z.ltb_spec v 0); [lia|done].
Qed.

Lemma edge_pixel_exact img x y :
  wf_image img →
  1 ≤ x < width img - 1 → 1 ≤ y < height img - 1 →
  clamp_pixel (edge_pixel img x y)
  = (let m := SpecEdge.rounded_clamped_sqrt
                (SpecEdge.gx img x y * SpecEdge.gx img x y
                 + SpecEdge.gy img x y * SpecEdge.gy img x y) in
     (m, m, m, 255)).
Proof.
  intros Hwf Hx Hy.
  assert (∀ dx dy, -1 ≤ dx ≤ 1 → -1 ≤ dy ≤ 1 →
            load (data img) (((y + dy) * width img + (x + dx)) * 4)
            = ofZ (SpecEdge.R img (y + dy) (x + dx))
            ∧ 0 ≤ SpecEdge.R img (y + dy) (x + dx) ≤ 255) as Hload.
  { intros dx dy Hdx Hdy. apply load_red_exact; [done|]. unfold in_grid. lia. }
  destruct (Hload (-1) (-1)) as [E1 B1]; [lia..|].
  destruct (Hload 0 (-1)) as [E2 B2]; [lia..|].
  destruct (Hload 1 (-1)) as [E3 B3]; [lia..|].
  destruct (Hload (-1) 0) as [E4 B4]; [lia..|].
  destruct (Hload 1 0) as [E6 B6]; [lia..|].
  destruct (Hload (-1) 1) as [E7 B7]; [lia..|].
  destruct (Hload 0 1) as [E8 B8]; [lia..|].
  destruct (Hload 1 1) as [E9 B9]; [lia..|].
  rewrite ?Z.add_0_r in *.
  change (y + -1) with (y - 1) in *. change (x + -1) with (x - 1) in *.
  assert (edge_gx img x y = ofZ (SpecEdge.gx img x y)) as Hgx.
  { unfold edge_gx. rewrite E1, E3, E4, E6, E7, E9.
    rewrite sobel_gx_exact by done. f_equal. unfold SpecEdge.gx. lia. }
  assert (edge_gy img x y = ofZ (SpecEdge.gy img x y)) as Hgy.
  { unfold edge_gy. rewrite E1, E2, E3, E7, E8, E9.
    rewrite sobel_gy_exact by done. f_equal. unfold SpecEdge.gy. lia. }
  unfold edge_pixel, clamp_pixel. cbv zeta. simpl pr. simpl pg. simpl pb. simpl pa.
  rewrite Hgx, Hgy, alpha_stored.
  rewrite magnitude_exact by (unfold SpecEdge.gx, SpecEdge.gy; lia).
  reflexivity.
Qed.

Lemma edge_output_interior img x y :
  wf_image img →
  1 ≤ x < width img - 1 → 1 ≤ y < height img - 1 →
  pixel_at (filtered (radius Edge) (kernel Edge) img) x y
  = Some (let m := SpecEdge.rounded_clamped_sqrt
                     (SpecEdge.gx img x y * SpecEdge.gx img x y
                      + SpecEdge.gy img x y * SpecEdge.gy img x y) in
          (m, m, m, 255)).
Proof.
  intros Hwf Hx Hy.
  rewrite pixel_at_output by (done || unfold in_grid; lia).
  rewrite decide_True by (unfold visited; simpl; lia).
  simpl kernel. by rewrite edge_pixel_exact.
Qed.

(** C3, as the code has it: at an interior pixel the Edge filter stores
    (m, m, m, 255) where m is min(255, sqrt(gx² + gy²)) rounded to the nearest
    integer, gx and gy being the Sobel sums over the red channel of the 3×3
    neighbourhood. *)
Theorem edge_interior (img : ImageData) (x y : Z) :
  wf_image img →
  1 ≤ x < width img - 1 → 1 ≤ y < height img - 1 →
  ∃ out, generateEdgeDetection img = Some out
         ∧ pixel_at out x y
           = Some (let m := SpecEdge.rounded_clamped_sqrt
                              (SpecEdge.gx img x y * SpecEdge.gx img x y
                               + SpecEdge.gy img x y * SpecEdge.gy img x y) in
                   (m, m, m, 255)).
Proof.
  intros Hwf Hx Hy.
  exists (filtered (radius Edge) (kernel Edge) img).
  split; [by apply (apply_filter_returns Edge)|].
  by apply edge_output_interior.
Qed.

(** ** The claims on concrete inputs *)

Lemma output_alpha_witness :
  ∃ out, apply_filter Edge img3 = Some out
         ∧ ∀ x y, in_grid img3 x y →
             sample_at out x y 3
             = Some (if decide (visited (radius Edge) img3 x y) then 255 else 0).
Proof.
  apply (output_alpha Edge img3).
  apply wf_imageb_sound. vm_compute. reflexivity.
Defined.

(** The 1×1 image: Edge returns one pixel, and its alpha is 0, not 255. *)
Lemma alpha_not_always_opaque :
  ¬ (∀ f img, wf_image img →
       ∀ out, apply_filter f img = Some out →
         ∀ x y, in_grid img x y → sample_at out x y 3 = Some 255).
Proof.
  intros H.
  assert (wf_image img1) as Hwf by (apply wf_imageb_sound; vm_compute; reflexivity).
  assert (in_grid img1 0 0) as Hg by (unfold in_grid; simpl; lia).
  pose proof (H Edge img1 Hwf (mkImageData 1 1 [0; 0; 0; 0]) eq_refl 0 0 Hg) as H0.
  vm_compute in H0. discriminate.
Qed.

Lemma edge_interior_witness :
  ∃ out, generateEdgeDetection img3 = Some out
         ∧ pixel_at out 1 1 = Some (4, 4, 4, 255).
Proof.
  apply (edge_interior img3 1 1).
  - apply wf_imageb_sound. vm_compute. reflexivity.
  - simpl. lia.
  - simpl. lia.
Defined.

(** At the centre of [img3], gx = 3 and gy = -3: the square root of 18 is no
    integer, and the byte stored is 4. *)
Lemma edge_unrounded_refuted :
  ¬ (∀ img x y, wf_image img →
       1 ≤ x < width img - 1 → 1 ≤ y < height img - 1 →
       ∃ out v, generateEdgeDetection img = Some out
                ∧ pixel_at out x y = Some (v, v, v, 255)
                ∧ SpecEdge.is_clamped_sqrt
                    (SpecEdge.gx img x y * SpecEdge.gx img x y
                     + SpecEdge.gy img x y * SpecEdge.gy img x y) v).
Proof.
  intros H.
  assert (wf_image img3) as Hwf by (apply wf_imageb_sound; vm_compute; reflexivity).
  destruct (H img3 1 1 Hwf ltac:(simpl; lia) ltac:(simpl; lia))
    as (out & v & Hout & Hpx & Hsq).
  vm_compute in Hout. injection Hout as <-.
  vm_compute in Hpx. injection Hpx as <-.
  vm_compute in Hsq. destruct Hsq as [[_ Hsq]|[Hsq _]]; discriminate.
Qed.

Lemma texture_full_window_witness :
  ∃ out, generateTextureAnalysis img5 = Some out
         ∧ pixel_at out 2 2 = Some (22, 17, 13, 255)
         ∧ sample_at out 2 2 3 = Some 255.
Proof.
  apply (texture_full_window img5 2 2).
  - apply wf_imageb_sound. vm_compute. reflexivity.
  - simpl. lia.
  - simpl. lia.
Defined.

(** At the centre of the gray ramp [img5], t = 21.63...: the bytes stored
    are 22, 17 and 13, not t, 0.8 t and 0.6 t. *)
Lemma texture_unrounded_refuted :
  ¬ (∀ img x y, wf_image img →
       2 ≤ x < width img - 2 → 2 ≤ y < height img - 2 →
       ∃ out, generateTextureAnalysis img = Some out
              ∧ Spec.numbers_at out x y
                = Some (Spec.unrounded (Spec.texture img x y))).
Proof.
  intros H.
  assert (wf_image img5) as Hwf by (apply wf_imageb_sound; vm_compute; reflexivity).
  destruct (H img5 2 2 Hwf ltac:(simpl; lia) ltac:(simpl; lia)) as (out & Hout & Hpx).
  vm_compute in Hout. injection Hout as <-.
  apply (f_equal (λ o, match o with
                       | Some (r, _, _, _) => (r <? 21.8)%float
                       | None => false
                       end)) in Hpx.
  vm_compute in Hpx. discriminate.
Qed.

Lemma lighting_interior_witness :
  ∃ out, generateLightingAnalysis img3 = Some out
         ∧ pixel_at out 1 1 = Some (5, 1, 3, 255)
         ∧ sample_at out 1 1 3 = Some 255.
Proof.
  apply (lighting_interior img3 1 1).
  - apply wf_imageb_sound. vm_compute. reflexivity.
  - simpl. lia.
  - simpl. lia.
Defined.

(** At the centre of [img3] the red value computed is 4.92...: the byte
    stored is 5. *)
Lemma lighting_unrounded_refuted :
  ¬ (∀ img x y, wf_image img →
       1 ≤ x < width img - 1 → 1 ≤ y < height img - 1 →
       ∃ out, generateLightingAnalysis img = Some out
              ∧ Spec.numbers_at out x y
                = Some (Spec.unrounded (Spec.lighting img x y))).
Proof.
  intros H.
  assert (wf_image img3) as Hwf by (apply wf_imageb_sound; vm_compute; reflexivity).
  destruct (H img3 1 1 Hwf ltac:(simpl; lia) ltac:(simpl; lia)) as (out & Hout & Hpx).
  vm_compute in Hout. injection Hout as <-.
  apply (f_equal (λ o, match o with
                       | Some (r, _, _, _) => (r <? 4.95)%float
                       | None => false
                       end)) in Hpx.
  vm_compute in Hpx. discriminate.
Qed.

Lemma gray_pixel_artificialness_witness :
  colorUniformity_of (ofByte 9) (ofByte 9) (ofByte 9) = 1%float
  ∧ (0.9 <? colorUniformity_of (ofByte 9) (ofByte 9) (ofByte 9))%float = true
  ∧ (0.8 <? saturation_of (ofByte 9) (ofByte 9) (ofByte 9))%float = false
  ∧ artificialness_of (ofByte 9) (ofByte 9) (ofByte 9) = 255%float
  ∧ ∃ out, generateColorDistribution img3 = Some out
           ∧ pixel_at out 1 1
             = Some (clamp_pixel (Px (ofByte 9 * 0.3 + 255 * 0.7)%float
                                     (ofByte 9 * 0.3 + 255 * 0.5)%float
                                     (ofByte 9 * 0.3 + 255 * 0.3)%float
                                     255%float)).
Proof.
  apply (gray_pixel_artificialness img3 1 1 9).
  - apply wf_imageb_sound. vm_compute. reflexivity.
  - unfold in_grid. simpl. lia.
  - vm_compute. reflexivity.
  - vm_compute. reflexivity.
  - vm_compute. reflexivity.
Defined.

Lemma border_policy_witness :
  (∃ out, generateEdgeDetection img3 = Some out
          ∧ ∀ x y, border_ring 1 img3 x y → pixel_at out x y = Some (0, 0, 0, 0))
  ∧ (∃ out, generateTextureAnalysis img3 = Some out
          ∧ ∀ x y, border_ring 2 img3 x y → pixel_at out x y = Some (0, 0, 0, 0))
  ∧ (∃ out, generateLightingAnalysis img3 = Some out
          ∧ ∀ x y, border_ring 1 img3 x y → pixel_at out x y = Some (0, 0, 0, 0))
  ∧ (∃ out, generateColorDistribution img3 = Some out
          ∧ ∀ x y, in_grid img3 x y →
              pixel_at out x y = Some (clamp_pixel (color_pixel img3 x y))
              ∧ sample_at out x y 3 = Some 255).
Proof.
  apply (border_policy img3).
  apply wf_imageb_sound. vm_compute. reflexivity.
Defined.

Lemma output_dimensions_witness :
  ∃ out, apply_filter Texture img5 = Some out
         ∧ width out = 5 ∧ height out = 5
         ∧ len (data out) = 5 * 5 * 4.
Proof.
  apply (output_dimensions Texture img5).
  apply wf_imageb_sound. vm_compute. reflexivity.
Defined.

Lemma degenerate_output_witness :
  ∃ out, apply_filter Texture img3 = Some out
         ∧ width out = 3 ∧ height out = 3
         ∧ data out = replicate 36 0
         ∧ ∀ x y, in_grid img3 x y → pixel_at out x y = Some (0, 0, 0, 0).
Proof.
  apply (degenerate_output Texture img3).
  - apply wf_imageb_sound. vm_compute. reflexivity.
  - left. vm_compute. reflexivity.
Defined.

Lemma alpha_independence_witness :
  apply_filter Color img3 = apply_filter Color img3_alpha
  ∧ generateEdgeDetection img3 = generateEdgeDetection img3_alpha.
Proof.
  destruct (alpha_independence img3 img3_alpha) as [Hrgb Hred].
  - reflexivity.
  - reflexivity.
  - split.
    + apply Hrgb. apply rgb_agreeb_sound. vm_compute. reflexivity.
    + apply Hred. intros i Hi.
      apply (agree_onb_sound (λ i, i `mod` 4 =? 0) img3.(data) img3_alpha.(data)).
      * vm_compute. reflexivity.
      * by apply Z.eqb_eq.
Defined.

(** ** Edge filter: black, white and flat regions *)

Lemma nearest_sqrt_zero_iff n : 0 ≤ n → (nearest_sqrt n = 0 ↔ n = 0).
Proof.
  intros Hn. destruct (nearest_sqrt_spec n Hn) as (H0 & H1 & H2). split.
  - intros Hz. rewrite Hz in H1. lia.
  - intros ->. reflexivity.
Qed.

Lemma nearest_sqrt_ge_iff n r :
  0 ≤ n → 1 ≤ r → (r ≤ nearest_sqrt n ↔ r * r - r < n).
Proof.
  intros Hn Hr. destruct (nearest_sqrt_spec n Hn) as (H0 & H1 & H2). split.
  - intros Hle. destruct H2 as [->|H2]; [|nia].
    change (nearest_sqrt 0) with 0 in Hle. lia.
  - intros Hlt. nia.
Qed.

(** An interior pixel of the Edge output is black exactly when both Sobel
    sums vanish. *)
Theorem edge_black_iff (img : ImageData) (x y : Z) :
  wf_image img →
  1 ≤ x < width img - 1 → 1 ≤ y < height img - 1 →
  ∃ out, generateEdgeDetection img = Some out
         ∧ (pixel_at out x y = Some (0, 0, 0, 255)
            ↔ SpecEdge.gx img x y = 0 ∧ SpecEdge.gy img x y = 0).
Proof.
  intros Hwf Hx Hy.
  exists (filtered (radius Edge) (kernel Edge) img).
  split; [by apply (apply_filter_returns Edge)|].
  rewrite edge_output_interior by done. cbv zeta.
  unfold SpecEdge.rounded_clamped_sqrt.
  set (n := SpecEdge.gx img x y * SpecEdge.gx img x y
            + SpecEdge.gy img x y * SpecEdge.gy img x y).
  assert (0 ≤ n) as Hn by (subst n; nia).
  pose proof (nearest_sqrt_zero_iff n Hn) as Hz.
  destruct (nearest_sqrt_spec n Hn) as (H0 & _ & _).
  split.
  - intros [= Hm _ _]. assert (n = 0) as Hn0 by (apply Hz; lia).
    subst n. nia.
  - intros [Hgx Hgy]. assert (n = 0) as Hn0 by (subst n; nia).
    apply Hz in Hn0. rewrite Hn0. reflexivity.
Qed.

(** An interior pixel of the Edge output is saturated (white) exactly when
    gx² + gy² is at least 64771, that is when the gradient magnitude is above
    254.5. *)
Theorem edge_white_iff (img : ImageData) (x y : Z) :
  wf_image img →
  1 ≤ x < width img - 1 → 1 ≤ y < height img - 1 →
  ∃ out, generateEdgeDetection img = Some out
         ∧ (pixel_at out x y = Some (255, 255, 255, 255)
            ↔ 64771 ≤ SpecEdge.gx img x y * SpecEdge.gx img x y
                      + SpecEdge.gy img x y * SpecEdge.gy img x y).
Proof.
  intros Hwf Hx Hy.
  exists (filtered (radius Edge) (kernel Edge) img).
  split; [by apply (apply_filter_returns Edge)|].
  rewrite edge_output_interior by done. cbv zeta.
  unfold SpecEdge.rounded_clamped_sqrt.
  set (n := SpecEdge.gx img x y * SpecEdge.gx img x y
            + SpecEdge.gy img x y * SpecEdge.gy img x y).
  assert (0 ≤ n) as Hn by (subst n; nia).
  pose proof (nearest_sqrt_ge_iff n 255 Hn ltac:(lia)) as Hge.
  split.
  - intros [= Hm _ _]. lia.
  - intros Hbig. assert (255 ≤ nearest_sqrt n) as Hr by (apply Hge; lia).
    replace (Z.min 255 (nearest_sqrt n)) with 255 by lia. reflexivity.
Qed.

(** On an image whose red channel is constant the Edge output is known
    everywhere: opaque black inside, transparent black on the border ring. *)
Theorem edge_constant_red (img : ImageData) (v : Z) :
  wf_image img →
  (∀ x y, in_grid img x y → sample_at img x y 0 = Some v) →
  ∃ out, generateEdgeDetection img = Some out
         ∧ ∀ x y, in_grid img x y →
             pixel_at out x y
             = Some (if decide (visited 1 img x y) then (0, 0, 0, 255)
                     else (0, 0, 0, 0)).
Proof.
  intros Hwf Hconst.
  exists (filtered (radius Edge) (kernel Edge) img).
  split; [by apply (apply_filter_returns Edge)|].
  intros x y Hg. rewrite pixel_at_output by done.
  change (radius Edge) with 1.
  case_decide as Hv; [|done].
  destruct Hv as [Hx Hy]. simpl kernel.
  rewrite edge_pixel_exact by done. cbv zeta.
  assert (∀ x' y', in_grid img x' y' → SpecEdge.R img y' x' = v) as HR.
  { intros x' y' Hg'. unfold SpecEdge.R. by rewrite (Hconst x' y' Hg'). }
  assert (SpecEdge.gx img x y = 0) as ->.
  { unfold SpecEdge.gx. rewrite !HR by (unfold in_grid; lia). lia. }
  assert (SpecEdge.gy img x y = 0) as ->.
  { unfold SpecEdge.gy. rewrite !HR by (unfold in_grid; lia). lia. }
  reflexivity.
Qed.

Lemma edge_black_iff_witness :
  ∃ out, generateEdgeDetection img5 = Some out
         ∧ (pixel_at out 2 2 = Some (0, 0, 0, 255)
            ↔ SpecEdge.gx img5 2 2 = 0 ∧ SpecEdge.gy img5 2 2 = 0).
Proof.
  apply (edge_black_iff img5 2 2).
  - apply wf_imageb_sound. vm_compute. reflexivity.
  - simpl. lia.
  - simpl. lia.
Defined.

Lemma edge_white_iff_witness :
  ∃ out, generateEdgeDetection img5 = Some out
         ∧ (pixel_at out 2 2 = Some (255, 255, 255, 255)
            ↔ 64771 ≤ SpecEdge.gx img5 2 2 * SpecEdge.gx img5 2 2
                      + SpecEdge.gy img5 2 2 * SpecEdge.gy img5 2 2).
Proof.
  apply (edge_white_iff img5 2 2).
  - apply wf_imageb_sound. vm_compute. reflexivity.
  - simpl. lia.
  - simpl. lia.
Defined.

Lemma edge_constant_red_witness :
  ∃ out, generateEdgeDetection img4_red = Some out
         ∧ ∀ x y, in_grid img4_red x y →
             pixel_at out x y
             = Some (if decide (visited 1 img4_red x y) then (0, 0, 0, 255)
                     else (0, 0, 0, 0)).
Proof.
  apply (edge_constant_red img4_red 7).
  - apply wf_imageb_sound. vm_compute. reflexivity.
  - intros x y [Hx Hy]. simpl in Hx, Hy.
    assert (x = 0 ∨ x = 1 ∨ x = 2 ∨ x = 3) as Hcx by lia.
    assert (y = 0 ∨ y = 1 ∨ y = 2 ∨ y = 3) as Hcy by lia.
    destruct Hcx as [->|[->|[->| ->]]], Hcy as [->|[->|[->| ->]]];
      vm_compute; reflexivity.
Defined.

(** ** Texture filter: flat regions *)

Lemma flat_table : allZ_from 766 0 flat_checkb = true.
Proof. vm_compute. reflexivity. Qed.

Lemma flat_texture_black s :
  0 ≤ s ≤ 765 → clamp_pixel (flat_texture (ofZ s / 3)%float) = (0, 0, 0, 255).
Proof.
  intros Hs.
  pose proof (allZ_from_sound _ _ 0 flat_table s ltac:(lia)) as H.
  by apply bool_decide_eq_true in H.
Qed.

Lemma load_channel_exact img x y c :
  wf_image img → in_grid img x y → 0 ≤ c < 4 →
  load (data img) ((y * width img + x) * 4 + c) = ofZ (channelZ img x y c)
  ∧ 0 ≤ channelZ img x y c ≤ 255.
Proof.
  intros Hwf Hg Hc.
  destruct (sample_at_defined img x y c Hwf Hg Hc) as (v & Hv & Hb).
  unfold channelZ. rewrite Hv. simpl. split; [|done].
  unfold sample_at in Hv.
  rewrite (load_of_sample _ _ _ Hv). unfold ofZ.
  destruct (Z.ltb_spec v 0); [lia|done].
Qed.

Lemma gray_exact img x y :
  wf_image img → in_grid img x y →
  Spec.gray img x y
  = (ofZ (channelZ img x y 0 + channelZ img x y 1 + channelZ img x y 2) / 3)%float.
Proof.
  intros Hwf Hg. unfold Spec.gray, Spec.red, Spec.green, Spec.blue.
  destruct (load_channel_exact img x y 0 Hwf Hg ltac:(lia)) as [E0 B0].
  destruct (load_channel_exact img x y 1 Hwf Hg ltac:(lia)) as [E1 B1].
  destruct (load_channel_exact img x y 2 Hwf Hg ltac:(lia)) as [E2 B2].
  rewrite Z.add_0_r in E0. rewrite E0, E1, E2.
  by rewrite !float_add_exact by lia.
Qed.

Lemma elem_of_window x y p :
  p ∈ Spec.window x y →
  ∃ dx dy, -2 ≤ dx ≤ 2 ∧ -2 ≤ dy ≤ 2 ∧ p = (x + dx, y + dy).
Proof.
  unfold Spec.window. intros H.
  apply list_elem_of_bind in H as (dy & H & Hdy).
  apply list_elem_of_bind in H as (dx & H & Hdx).
  apply list_elem_of_singleton in H.
  apply elem_of_seqZ in Hdy, Hdx. exists dx, dy. split; [lia|]. split; [lia|done].
Qed.

Lemma fmap_constant {A B : Type} (f : A → B) (l : list A) (b : B) :
  (∀ a, a ∈ l → f a = b) → f <$> l = replicate (length l) b.
Proof.
  induction l as [|a l IH]; intros H; simpl; [done|].
  rewrite (H a) by left. f_equal. apply IH. intros a' Ha'. apply H. by right.
Qed.

(** Where the 25 pixels of the window all have the same sum R + G + B, the
    Texture filter stores opaque black: a flat region has no texture. *)
Theorem texture_flat_window (img : ImageData) (x y s : Z) :
  wf_image img →
  2 ≤ x < width img - 2 → 2 ≤ y < height img - 2 →
  (∀ dx dy, -2 ≤ dx ≤ 2 → -2 ≤ dy ≤ 2 →
     channelZ img (x + dx) (y + dy) 0 + channelZ img (x + dx) (y + dy) 1
     + channelZ img (x + dx) (y + dy) 2 = s) →
  ∃ out, generateTextureAnalysis img = Some out
         ∧ pixel_at out x y = Some (0, 0, 0, 255).
Proof.
  intros Hwf Hx Hy Hflat.
  exists (filtered (radius Texture) (kernel Texture) img).
  split; [by apply (apply_filter_returns Texture)|].
  rewrite pixel_at_output by (done || unfold in_grid; lia).
  rewrite decide_True by (unfold visited; change (radius Texture) with 2; lia).
  simpl kernel. rewrite texture_pixel_spec. f_equal.
  set (g := (ofZ s / 3)%float).
  assert (∀ p, p ∈ Spec.window x y → Spec.gray img p.1 p.2 = g) as Hgray.
  { intros p Hp. apply elem_of_window in Hp as (dx & dy & Hdx & Hdy & ->). simpl.
    rewrite gray_exact by (done || unfold in_grid; lia).
    by rewrite Hflat. }
  assert (0 ≤ s ≤ 765) as Hs.
  { pose proof (Hflat 0 0 ltac:(lia) ltac:(lia)) as H0.
    assert (in_grid img (x + 0) (y + 0)) as Hg by (unfold in_grid; lia).
    destruct (load_channel_exact img _ _ 0 Hwf Hg ltac:(lia)) as [_ B0].
    destruct (load_channel_exact img _ _ 1 Hwf Hg ltac:(lia)) as [_ B1].
    destruct (load_channel_exact img _ _ 2 Hwf Hg ltac:(lia)) as [_ B2]. lia. }
  assert (Spec.texture img x y = flat_texture g) as ->; [|by apply flat_texture_black].
  assert (Spec.mean img x y = (Spec.total (replicate 25 g) / 25)%float) as Hmean.
  { unfold Spec.mean.
    by rewrite (fmap_constant (λ p : Z * Z, Spec.gray img p.1 p.2)
                  (Spec.window x y) g Hgray). }
  unfold Spec.texture, flat_texture, Spec.variance. rewrite Hmean. cbv zeta.
  rewrite (fmap_constant
             (λ p : Z * Z,
                ((Spec.gray img p.1 p.2 - Spec.total (replicate 25 g) / 25)
                 * (Spec.gray img p.1 p.2 - Spec.total (replicate 25 g) / 25))%float)
             (Spec.window x y)
             ((g - Spec.total (replicate 25 g) / 25)
              * (g - Spec.total (replicate 25 g) / 25))%float).
  - reflexivity.
  - intros p Hp. by rewrite (Hgray p Hp).
Qed.

Lemma texture_flat_window_witness :
  ∃ out, generateTextureAnalysis img5_flat = Some out
         ∧ pixel_at out 2 2 = Some (0, 0, 0, 255).
Proof.
  apply (texture_flat_window img5_flat 2 2 241).
  - apply wf_imageb_sound. vm_compute. reflexivity.
  - simpl. lia.
  - simpl. lia.
  - intros dx dy Hdx Hdy.
    assert (dx = -2 ∨ dx = -1 ∨ dx = 0 ∨ dx = 1 ∨ dx = 2) as Hcx by lia.
    assert (dy = -2 ∨ dy = -1 ∨ dy = 0 ∨ dy = 1 ∨ dy = 2) as Hcy by lia.
    destruct Hcx as [->|[->|[->|[->| ->]]]], Hcy as [->|[->|[->|[->| ->]]]];
      vm_compute; reflexivity.
Defined.

(** ** Lighting filter: no gradient *)

(** A number minus itself is +0, or NaN when the number is not finite. *)
Lemma float_sub_diag (a : number) : (a - a)%float = 0%float ∨ (a - a)%float = nan.
Proof.
  assert (Prim2SF (a - a) = S754_zero false ∨ Prim2SF (a - a) = S754_nan) as [H|H].
  { rewrite FloatAxioms.sub_spec. unfold SF64sub, SFsub.
    destruct (Prim2SF a) as [[|]|[|]| |s m e]; auto.
    left. by rewrite Z.sub_diag. }
  - left. by apply Prim2SF_inj.
  - right. by apply Prim2SF_inj.
Qed.

Lemma no_gradient_green (h v : number) :
  (h = 0%float ∨ h = nan) → (v = 0%float ∨ v = nan) →
  ToUint8Clamp
    (Math_min 255%float
       (Math_sqrt (Math_abs h * Math_abs h + Math_abs v * Math_abs v) * 2)%float) = 0.
Proof. by intros [-> | ->] [-> | ->]; vm_compute. Qed.

(** Where the left and the right neighbour have the same colour, and the
    upper and the lower neighbour too, the Lighting filter stores green 0 at
    an interior pixel, whatever the colours are: no luminance difference, no
    gradient. *)
Theorem lighting_no_gradient (img : ImageData) (x y : Z) :
  wf_image img →
  1 ≤ x < width img - 1 → 1 ≤ y < height img - 1 →
  (∀ c, 0 ≤ c < 3 → sample_at img (x - 1) y c = sample_at img (x + 1) y c) →
  (∀ c, 0 ≤ c < 3 → sample_at img x (y - 1) c = sample_at img x (y + 1) c) →
  ∃ out r b, generateLightingAnalysis img = Some out
             ∧ pixel_at out x y = Some (r, 0, b, 255).
Proof.
  intros Hwf Hx Hy Hh Hv.
  exists (filtered (radius Lighting) (kernel Lighting) img),
         (ToUint8Clamp (pr (lighting_pixel img x y))),
         (ToUint8Clamp (pb (lighting_pixel img x y))).
  split; [by apply (apply_filter_returns Lighting)|].
  rewrite pixel_at_output by (done || unfold in_grid; lia).
  rewrite decide_True by (unfold visited; change (radius Lighting) with 1; lia).
  simpl kernel. unfold clamp_pixel.
  change (pa (lighting_pixel img x y)) with 255%float. rewrite alpha_stored.
  assert (ToUint8Clamp (pg (lighting_pixel img x y)) = 0) as ->; [|done].
  unfold lighting_pixel. cbn [pg].
  pose proof (Hh 0 ltac:(lia)) as Hh0. pose proof (Hh 1 ltac:(lia)) as Hh1.
  pose proof (Hh 2 ltac:(lia)) as Hh2.
  pose proof (Hv 0 ltac:(lia)) as Hv0. pose proof (Hv 1 ltac:(lia)) as Hv1.
  pose proof (Hv 2 ltac:(lia)) as Hv2.
  unfold sample_at in *. rewrite !Z.add_0_r in Hh0, Hv0.
  rewrite !load_sample, Hh0, Hh1, Hh2, Hv0, Hv1, Hv2.
  apply no_gradient_green; apply float_sub_diag.
Qed.

Lemma lighting_no_gradient_witness :
  ∃ out r b, generateLightingAnalysis img3_mirror = Some out
             ∧ pixel_at out 1 1 = Some (r, 0, b, 255).
Proof.
  apply (lighting_no_gradient img3_mirror 1 1).
  - apply wf_imageb_sound. vm_compute. reflexivity.
  - simpl. lia.
  - simpl. lia.
  - intros c Hc. assert (c = 0 ∨ c = 1 ∨ c = 2) as Hcc by lia.
    destruct Hcc as [->|[->| ->]]; vm_compute; reflexivity.
  - intros c Hc. assert (c = 0 ∨ c = 1 ∨ c = 2) as Hcc by lia.
    destruct Hcc as [->|[->| ->]]; vm_compute; reflexivity.
Defined.

(** ** Color filter: a pointwise map *)

(** The Color output at a position depends on the input's R, G, B at that
    very position only: equal colours give equal output pixels, wherever they
    sit and whatever surrounds them. *)
Theorem color_pointwise (img1 img2 : ImageData) (x1 y1 x2 y2 : Z) :
  wf_image img1 → wf_image img2 →
  in_grid img1 x1 y1 → in_grid img2 x2 y2 →
  (∀ c, 0 ≤ c < 3 → sample_at img1 x1 y1 c = sample_at img2 x2 y2 c) →
  ∃ out1 out2,
    generateColorDistribution img1 = Some out1
    ∧ generateColorDistribution img2 = Some out2
    ∧ pixel_at out1 x1 y1 = pixel_at out2 x2 y2.
Proof.
  intros Hwf1 Hwf2 Hg1 Hg2 Hsame.
  exists (filtered (radius Color) (kernel Color) img1),
         (filtered (radius Color) (kernel Color) img2).
  split; [by apply (apply_filter_returns Color)|].
  split; [by apply (apply_filter_returns Color)|].
  rewrite !pixel_at_output by done.
  rewrite !decide_True
    by (destruct Hg1, Hg2; unfold visited; change (radius Color) with 0; lia).
  do 2 f_equal. simpl kernel. unfold color_pixel.
  pose proof (Hsame 0 ltac:(lia)) as H0.
  pose proof (Hsame 1 ltac:(lia)) as H1.
  pose proof (Hsame 2 ltac:(lia)) as H2.
  unfold sample_at in H0, H1, H2. rewrite !Z.add_0_r in H0.
  by rewrite !load_sample, H0, H1, H2.
Qed.

Lemma color_pointwise_witness :
  ∃ out1 out2,
    generateColorDistribution img3 = Some out1
    ∧ generateColorDistribution img3_alpha = Some out2
    ∧ pixel_at out1 0 0 = pixel_at out2 1 0.
Proof.
  apply (color_pointwise img3 img3_alpha 0 0 1 0).
  - apply wf_imageb_sound. vm_compute. reflexivity.
  - apply wf_imageb_sound. vm_compute. reflexivity.
  - unfold in_grid. simpl. lia.
  - unfold in_grid. simpl. lia.
  - intros c Hc. assert (c = 0 ∨ c = 1 ∨ c = 2) as Hcc by lia.
    destruct Hcc as [->|[->| ->]]; vm_compute; reflexivity.
Defined.

(** ** Color filter: the two thresholds, over bytes *)

Lemma bytes2_sound P :
  bytes2 P = true → ∀ i j, 0 ≤ i ≤ 255 → 0 ≤ j ≤ 255 → P i j = true.
Proof.
  intros H i j Hi Hj. unfold bytes2 in H.
  pose proof (allZ_from_sound _ _ 0 H i ltac:(lia)) as Hrow. cbv beta in Hrow.
  exact (allZ_from_sound _ _ 0 Hrow j ltac:(lia)).
Qed.

Lemma pair_table : bytes2 pair_checkb = true.
Proof. vm_compute. reflexivity. Qed.

Lemma saturation_table : bytes2 saturation_checkb = true.
Proof. vm_compute. reflexivity. Qed.

Lemma uniformity_table : bytes2 uniformity_checkb = true.
Proof. vm_compute. reflexivity. Qed.

Lemma bytes_pair r g :
  0 ≤ r ≤ 255 → 0 ≤ g ≤ 255 →
  Math_max (ofByte r) (ofByte g) = ofByte (Z.max r g)
  ∧ Math_min (ofByte r) (ofByte g) = ofByte (Z.min r g)
  ∧ Math_abs (ofByte r - ofByte g)%float = ofByte (Z.abs (r - g)).
Proof.
  intros Hr Hg. pose proof (bytes2_sound _ pair_table r g Hr Hg) as H.
  unfold pair_checkb in H.
  apply andb_true_iff in H as [H Ha]. apply andb_true_iff in H as [HM Hm].
  apply FloatAxioms.Leibniz.eqb_spec in HM, Hm, Ha. done.
Qed.

Lemma saturation_threshold M m :
  0 ≤ m ≤ M → M ≤ 255 →
  (0.8 <? saturation_from (ofByte M) (ofByte m))%float = (5 * m <? M)
  ∧ ((5 * m <? M) = false →
     (saturation_from (ofByte M) (ofByte m) * 255)%float ≠ 255%float).
Proof.
  intros Hm HM.
  pose proof (bytes2_sound _ saturation_table M m ltac:(lia) ltac:(lia)) as H.
  unfold saturation_checkb in H. cbv zeta in H.
  destruct (Z.ltb_spec M m); [lia|]. rewrite orb_false_l in H.
  apply andb_true_iff in H as [He Hn]. apply Bool.eqb_prop in He.
  split; [done|]. intros Hf. rewrite He, Hf, orb_false_l in Hn.
  intros Heq. apply FloatAxioms.Leibniz.eqb_spec in Heq. by rewrite Heq in Hn.
Qed.

Lemma uniformity_threshold a b c :
  0 ≤ a ≤ 255 → 0 ≤ b ≤ 255 → 0 ≤ c ≤ 255 →
  c = a + b ∨ c = Z.abs (a - b) →
  (0.9 <? uniformity_from a b c)%float = (a + b + c <=? 25).
Proof.
  intros Ha Hb Hc Hcase.
  pose proof (bytes2_sound _ uniformity_table a b Ha Hb) as H.
  unfold uniformity_checkb in H. apply andb_true_iff in H as [H1 H2].
  destruct Hcase as [-> | ->].
  - destruct (Z.ltb_spec 255 (a + b)); [lia|]. rewrite orb_false_l in H1.
    by apply Bool.eqb_prop in H1.
  - by apply Bool.eqb_prop in H2.
Qed.

Lemma artificialness_bytes r g b :
  0 ≤ r ≤ 255 → 0 ≤ g ≤ 255 → 0 ≤ b ≤ 255 →
  artificialness_of (ofByte r) (ofByte g) (ofByte b) = 255%float ↔ flagged r g b.
Proof.
  intros Hr Hg Hb. unfold flagged. cbv zeta.
  set (M := Z.max (Z.max r g) b). set (m := Z.min (Z.min r g) b).
  destruct (bytes_pair r g Hr Hg) as (HMrg & Hmrg & Harg).
  destruct (bytes_pair (Z.max r g) b ltac:(lia) Hb) as (HM & _ & _).
  destruct (bytes_pair (Z.min r g) b ltac:(lia) Hb) as (_ & Hm & _).
  destruct (bytes_pair g b Hg Hb) as (_ & _ & Hagb).
  destruct (bytes_pair r b Hr Hb) as (_ & _ & Harb).
  assert (saturation_of (ofByte r) (ofByte g) (ofByte b)
          = saturation_from (ofByte M) (ofByte m)) as Hsat.
  { unfold saturation_of, Math_max3, Math_min3. cbv zeta.
    rewrite HMrg, HM, Hmrg, Hm. reflexivity. }
  assert (colorUniformity_of (ofByte r) (ofByte g) (ofByte b)
          = uniformity_from (Z.abs (r - g)) (Z.abs (g - b)) (Z.abs (r - b))) as Huni.
  { unfold colorUniformity_of. rewrite Harg, Hagb, Harb. reflexivity. }
  unfold artificialness_of. cbv zeta. rewrite Hsat, Huni.
  destruct (saturation_threshold M m ltac:(unfold M, m; lia) ltac:(unfold M; lia))
    as [Hs Hne].
  rewrite Hs.
  rewrite (uniformity_threshold (Z.abs (r - g)) (Z.abs (g - b)) (Z.abs (r - b)))
    by lia.
  destruct (Z.ltb_spec (5 * m) M) as [Hlt|Hge].
  - rewrite orb_true_l. split; [intros _; by left|done].
  - rewrite orb_false_l.
    destruct (Z.leb_spec (Z.abs (r - g) + Z.abs (g - b) + Z.abs (r - b)) 25) as [Hu|Hu].
    + split; [|done]. intros _. right. unfold M, m. lia.
    + split.
      * intros Heq. by destruct (Hne eq_refl).
      * intros [Hc|Hc]; [lia|]. unfold M, m in Hc. lia.
Qed.

(** In terms of the bytes of a pixel, the Color filter takes artificialness
    255 exactly when the largest of R, G, B is more than five times the
    smallest (saturation above 0.8) or the two are at most 12 apart
    (colorUniformity above 0.9); such a pixel is stored as the blend of its
    colour with 255. *)
Theorem color_flag_thresholds (img : ImageData) (x y r g b : Z) :
  wf_image img → in_grid img x y →
  sample_at img x y 0 = Some r →
  sample_at img x y 1 = Some g →
  sample_at img x y 2 = Some b →
  (artificialness_of (ofByte r) (ofByte g) (ofByte b) = 255%float ↔ flagged r g b)
  ∧ (flagged r g b →
     ∃ out, generateColorDistribution img = Some out
            ∧ pixel_at out x y
              = Some (clamp_pixel (Px (ofByte r * 0.3 + 255 * 0.7)%float
                                      (ofByte g * 0.3 + 255 * 0.5)%float
                                      (ofByte b * 0.3 + 255 * 0.3)%float
                                      255%float))).
Proof.
  intros Hwf Hg HR HG HB.
  pose proof (sample_byte _ _ _ Hwf HR) as Hr.
  pose proof (sample_byte _ _ _ Hwf HG) as Hgb.
  pose proof (sample_byte _ _ _ Hwf HB) as Hb.
  pose proof (artificialness_bytes r g b Hr Hgb Hb) as Hiff.
  split; [done|]. intros Hf. apply Hiff in Hf.
  exists (filtered (radius Color) (kernel Color) img).
  split; [by apply (apply_filter_returns Color)|].
  rewrite pixel_at_output by done.
  rewrite decide_True by (destruct Hg; unfold visited; simpl; lia).
  do 2 f_equal. simpl kernel. unfold color_pixel.
  unfold sample_at in HR, HG, HB. rewrite Z.add_0_r in HR.
  rewrite (load_of_sample _ _ _ HR), (load_of_sample _ _ _ HG),
    (load_of_sample _ _ _ HB).
  cbv zeta. by rewrite Hf.
Qed.

Lemma color_flag_thresholds_witness :
  (artificialness_of (ofByte 1) (ofByte 2) (ofByte 3) = 255%float ↔ flagged 1 2 3)
  ∧ (flagged 1 2 3 →
     ∃ out, generateColorDistribution img3_mirror = Some out
            ∧ pixel_at out 0 0
              = Some (clamp_pixel (Px (ofByte 1 * 0.3 + 255 * 0.7)%float
                                      (ofByte 2 * 0.3 + 255 * 0.5)%float
                                      (ofByte 3 * 0.3 + 255 * 0.3)%float
                                      255%float))).
Proof.
  apply (color_flag_thresholds img3_mirror 0 0 1 2 3).
  - apply wf_imageb_sound. vm_compute. reflexivity.
  - unfold in_grid. simpl. lia.
  - vm_compute. reflexivity.
  - vm_compute. reflexivity.
  - vm_compute. reflexivity.
Defined.

(** ** Locality of the filters *)

Section Local.
Variables (f : Filter) (img1 img2 : ImageData) (x1 y1 x2 y2 : Z).
Hypothesis same :
  ∀ dx dy c, reads f dx dy c = true →
    sample_at img1 (x1 + dx) (y1 + dy) c = sample_at img2 (x2 + dx) (y2 + dy) c.

Lemma load_local dx dy c :
  reads f dx dy c = true →
  load (data img1) (((y1 + dy) * width img1 + (x1 + dx)) * 4 + c)
  = load (data img2) (((y2 + dy) * width img2 + (x2 + dx)) * 4 + c).
Proof.
  intros H. apply same in H. unfold sample_at in H. by rewrite !load_sample, H.
Qed.

Lemma load_local_red dx dy :
  reads f dx dy 0 = true →
  load (data img1) (((y1 + dy) * width img1 + (x1 + dx)) * 4)
  = load (data img2) (((y2 + dy) * width img2 + (x2 + dx)) * 4).
Proof. intros H. apply load_local in H. by rewrite !Z.add_0_r in H. Qed.
End Local.


Lemma add_minus_one (a : Z) : a + -1 = a - 1.
Proof. reflexivity. Qed.

Ltac rewrite_loads L dx dy :=
  let E0 := fresh "E" in
  let E1 := fresh "E" in
  let E2 := fresh "E" in
  pose proof (L dx dy 0 eq_refl) as E0;
  pose proof (L dx dy 1 eq_refl) as E1;
  pose proof (L dx dy 2 eq_refl) as E2;
  rewrite ?Z.add_0_r, ?add_minus_one in E0;
  rewrite ?Z.add_0_r, ?add_minus_one in E1;
  rewrite ?Z.add_0_r, ?add_minus_one in E2;
  rewrite ?E0, ?E1, ?E2; clear E0 E1 E2.

Lemma kernel_local f img1 img2 x1 y1 x2 y2 :
  (∀ dx dy c, reads f dx dy c = true →
     sample_at img1 (x1 + dx) (y1 + dy) c = sample_at img2 (x2 + dx) (y2 + dy) c) →
  kernel f img1 x1 y1 = kernel f img2 x2 y2.
Proof.
  intros H. pose proof (load_local f img1 img2 x1 y1 x2 y2 H) as L.
  destruct f; simpl kernel.
  - unfold edge_pixel, edge_gx, edge_gy.
    pose proof (L (-1) (-1) 0 eq_refl) as Eaa. pose proof (L 0 (-1) 0 eq_refl) as Eba.
    pose proof (L 1 (-1) 0 eq_refl) as Eca. pose proof (L (-1) 0 0 eq_refl) as Eab.
    pose proof (L 1 0 0 eq_refl) as Ecb. pose proof (L (-1) 1 0 eq_refl) as Eac.
    pose proof (L 0 1 0 eq_refl) as Ebc. pose proof (L 1 1 0 eq_refl) as Ecc.
    rewrite ?Z.add_0_r, ?add_minus_one in *.
    by rewrite Eaa, Eba, Eca, Eab, Ecb, Eac, Ebc, Ecc.
  - assert (∀ dx dy, -2 ≤ dx ≤ 2 → -2 ≤ dy ≤ 2 →
              ((load (data img1) (((y1 + dy) * width img1 + (x1 + dx)) * 4)
                + load (data img1) (((y1 + dy) * width img1 + (x1 + dx)) * 4 + 1)
                + load (data img1) (((y1 + dy) * width img1 + (x1 + dx)) * 4 + 2)) / 3)%float
              = ((load (data img2) (((y2 + dy) * width img2 + (x2 + dx)) * 4)
                  + load (data img2) (((y2 + dy) * width img2 + (x2 + dx)) * 4 + 1)
                  + load (data img2) (((y2 + dy) * width img2 + (x2 + dx)) * 4 + 2)) / 3)%float)
      as Hgray.
    { intros dx dy Hdx Hdy.
      assert (∀ c, 0 ≤ c < 3 → reads Texture dx dy c = true) as Hr.
      { intros c Hc. unfold reads.
        repeat (apply andb_true_intro; split); lia. }
      pose proof (L dx dy 0 (Hr 0 ltac:(lia))) as E0.
      rewrite !Z.add_0_r in E0.
      by rewrite E0, (L dx dy 1 (Hr 1 ltac:(lia))), (L dx dy 2 (Hr 2 ltac:(lia))). }
    assert (texture_sum_count img1 x1 y1 = texture_sum_count img2 x2 y2) as Hsc.
    { unfold texture_sum_count, for_range.
      apply foldl_ext_in. intros acc dy Hdy.
      apply foldl_ext_in. intros [sum count] dx Hdx.
      apply elem_of_seqZ in Hdy, Hdx. change halfWindow with 2 in Hdy, Hdx. cbv zeta.
      by rewrite Hgray by lia. }
    assert (∀ mean, texture_variance_sum img1 x1 y1 mean
                    = texture_variance_sum img2 x2 y2 mean) as Hv.
    { intros mean. unfold texture_variance_sum, for_range.
      apply foldl_ext_in. intros acc dy Hdy.
      apply foldl_ext_in. intros variance dx Hdx.
      apply elem_of_seqZ in Hdy, Hdx. change halfWindow with 2 in Hdy, Hdx. cbv zeta.
      by rewrite Hgray by lia. }
    unfold texture_pixel, texture_value. rewrite Hsc.
    destruct (texture_sum_count img2 x2 y2) as [sum count]. by rewrite Hv.
  - unfold lighting_pixel.
    rewrite_loads L 0 0. rewrite_loads L (-1) 0. rewrite_loads L 1 0.
    rewrite_loads L 0 (-1). rewrite_loads L 0 1. reflexivity.
  - unfold color_pixel. rewrite_loads L 0 0. reflexivity.
Qed.

(** Every filter is local and does not depend on the position: the pixel it
    stores at a visited position is determined by the samples it reads
    around that position ([reads]).  Two images, of whatever sizes, that
    agree on these samples around two visited positions get the same output
    pixel there. *)
Theorem filters_local (f : Filter) (img1 img2 : ImageData) (x1 y1 x2 y2 : Z) :
  wf_image img1 → wf_image img2 →
  visited (radius f) img1 x1 y1 → visited (radius f) img2 x2 y2 →
  (∀ dx dy c, reads f dx dy c = true →
     sample_at img1 (x1 + dx) (y1 + dy) c = sample_at img2 (x2 + dx) (y2 + dy) c) →
  ∃ out1 out2,
    apply_filter f img1 = Some out1
    ∧ apply_filter f img2 = Some out2
    ∧ pixel_at out1 x1 y1 = pixel_at out2 x2 y2.
Proof.
  intros Hwf1 Hwf2 Hv1 Hv2 Hsame.
  exists (filtered (radius f) (kernel f) img1), (filtered (radius f) (kernel f) img2).
  split; [by apply apply_filter_returns|].
  split; [by apply apply_filter_returns|].
  pose proof (radius_nonneg f) as Hr.
  rewrite !pixel_at_output
    by (done || destruct Hv1, Hv2; unfold in_grid; lia).
  rewrite !decide_True by done.
  by rewrite (kernel_local f img1 img2 x1 y1 x2 y2 Hsame).
Qed.

Lemma filters_local_witness :
  ∃ out1 out2,
    apply_filter Edge img4_red = Some out1
    ∧ apply_filter Edge img4_red = Some out2
    ∧ pixel_at out1 1 1 = pixel_at out2 2 2.
Proof.
  apply (filters_local Edge img4_red img4_red 1 1 2 2).
  - apply wf_imageb_sound. vm_compute. reflexivity.
  - apply wf_imageb_sound. vm_compute. reflexivity.
  - unfold visited. simpl. lia.
  - unfold visited. simpl. lia.
  - intros dx dy c H. unfold reads in H.
    apply andb_true_iff in H as [H _]. apply andb_true_iff in H as [H Hy].
    apply andb_true_iff in H as [Hc Hx].
    apply Z.eqb_eq in Hc as ->. apply Z.leb_le in Hx, Hy.
    assert (dx = -1 ∨ dx = 0 ∨ dx = 1) as Hcx by lia.
    assert (dy = -1 ∨ dy = 0 ∨ dy = 1) as Hcy by lia.
    destruct Hcx as [->|[->| ->]], Hcy as [->|[->| ->]]; vm_compute; reflexivity.
Defined.

(** ** View aggregator: when it rejects and what it resolves with *)

(** The promise is rejected exactly when the canvas gives no 2d context:
    nothing the image does afterwards rejects it. *)
Theorem rejected_iff_no_context {DataURL : Type} (toDataURL : ImageData → DataURL)
    (ctx : bool) (event : ImageEvent) (e : Error) :
  generateAnalyticalViews toDataURL ctx event = Rejected e ↔ ctx = false.
Proof.
  unfold generateAnalyticalViews. destruct ctx; simpl.
  - split; [|discriminate]. destruct event as [decoded|]; [|discriminate].
    destruct (onload toDataURL decoded); discriminate.
  - split; [done|]. intros _. by destruct e.
Qed.





(** ** The caller's scores *)

Lemma ToInt32_range n : - 2 ^ 31 ≤ ToInt32 n < 2 ^ 31.
Proof.
  unfold ToInt32.
  pose proof (Z.mod_pos_bound (n + 2 ^ 31) (2 ^ 32) ltac:(lia)). lia.
Qed.

Lemma fileNameHash_snoc name char :
  fileNameHash (name ++ [char])
  = shl5 (fileNameHash name) - fileNameHash name + char.
Proof. unfold fileNameHash. by rewrite foldl_app. Qed.

Lemma fileNameHash_bound name :
  Forall (λ c, 0 ≤ c ≤ 65535) name →
  Z.abs (fileNameHash name) ≤ Z.of_nat (length name) * (2 ^ 31 + 65535).
Proof.
  induction name as [|char name IH] using rev_ind; intros Hc.
  - change (Z.abs 0 ≤ 0 * (2 ^ 31 + 65535)). lia.
  - apply Forall_app in Hc as [Hc Hchar]. rewrite Forall_singleton in Hchar.
    specialize (IH Hc). rewrite fileNameHash_snoc, length_app.
    change (length [char]) with 1%nat.
    pose proof (ToInt32_range (ToInt32 (fileNameHash name) * 2 ^ 5)) as Hs.
    fold (shl5 (fileNameHash name)) in Hs.
    change (2 ^ 31) with 2147483648 in *. lia.
Qed.

(** The hash of a file name and every value met while computing it are
    integers below 2^53 in magnitude: double precision computes them
    exactly. *)
Theorem fileNameHash_exact (name : list Z) :
  file_name name →
  ∀ prefix, prefix `prefix_of` name →
    Z.abs (fileNameHash prefix) < 2 ^ 53
    ∧ Z.abs (shl5 (fileNameHash prefix) - fileNameHash prefix) < 2 ^ 53.
Proof.
  intros [Hc Hlen] prefix [rest ->].
  apply Forall_app in Hc as [Hc _]. rewrite length_app in Hlen.
  pose proof (fileNameHash_bound prefix Hc) as Hb.
  pose proof (ToInt32_range (ToInt32 (fileNameHash prefix) * 2 ^ 5)) as Hs.
  fold (shl5 (fileNameHash prefix)) in Hs.
  change (2 ^ 31) with 2147483648 in *. change (2 ^ 20) with 1048576 in *.
  change (2 ^ 53) with 9007199254740992. lia.
Qed.

Lemma authenticityScore_bounds (isFakeFile : bool) (hash : Z) :
  (if isFakeFile then 15 ≤ authenticityScore isFakeFile hash ≤ 45
   else 75 ≤ authenticityScore isFakeFile hash ≤ 95)
  ∧ authenticityScore isFakeFile hash
    = (if isFakeFile then 15 + Z.abs (Z.rem hash 31)
       else 75 + Z.abs (Z.rem hash 21)).
Proof.
  unfold authenticityScore.
  pose proof (Z.rem_bound_abs hash 31 ltac:(lia)) as H31.
  pose proof (Z.rem_bound_abs hash 21 ltac:(lia)) as H21.
  destruct isFakeFile; lia.
Qed.

(** A name with "fake", "generated" or "ai" in it scores between 15 and 45,
    any other name between 75 and 95, and the final clamp to [0, 100] never
    changes the score. *)
Theorem authenticityScore_range (isFakeFile : bool) (name : list Z) :
  file_name name →
  let score := authenticityScore isFakeFile (fileNameHash name) in
  (if isFakeFile then 15 ≤ score ≤ 45 else 75 ≤ score ≤ 95)
  ∧ score = (if isFakeFile then 15 + Z.abs (Z.rem (fileNameHash name) 31)
             else 75 + Z.abs (Z.rem (fileNameHash name) 21)).
Proof.
  intros _ score. subst score. apply authenticityScore_bounds.
Qed.

(** [getStatusInfo] never gives [authentic] to the score of a name with
    "fake", "generated" or "ai" in it, and never gives [fake] to the score of
    another name. *)
Theorem status_follows_name (isFakeFile : bool) (name : list Z) :
  file_name name →
  let status := getStatusInfo (authenticityScore isFakeFile (fileNameHash name)) in
  if isFakeFile then status ≠ authentic else status ≠ fake.
Proof.
  intros Hname status. subst status.
  destruct (authenticityScore_bounds isFakeFile (fileNameHash name)) as [Hr _].
  unfold getStatusInfo.
  destruct isFakeFile.
  - destruct (Z.leb_spec 80 (authenticityScore true (fileNameHash name))); [lia|].
    by destruct (40 <=? _).
  - destruct (Z.leb_spec 80 (authenticityScore false (fileNameHash name))); [done|].
    destruct (Z.leb_spec 40 (authenticityScore false (fileNameHash name))); [done|lia].
Qed.

(** The confidence of the catch branch lies between 70 and 94: neither
    [Math.max(70, ...)] nor [Math.min(95, ...)] ever changes it. *)
Theorem fallbackConfidence_range (name : list Z) :
  file_name name →
  70 ≤ fallbackConfidence (fileNameHash name) ≤ 94
  ∧ fallbackConfidence (fileNameHash name)
    = Z.abs (Z.rem (fileNameHash name) 25) + 70.
Proof.
  intros _. unfold fallbackConfidence.
  pose proof (Z.rem_bound_abs (fileNameHash name) 25 ltac:(lia)). lia.
Qed.

(** In the catch branch of the other revision a file whose name is not
    suspicious scores at least 70, so that no analytical views are asked for;
    a suspicious name scores between 20 and 79. *)
Theorem fallbackScore_range (suspiciousName isVideo : bool) (name : list Z) (size : Z) :
  file_name name → 0 ≤ size < 2 ^ 52 →
  let score := fallbackScore suspiciousName (fileNameHash name) size in
  if suspiciousName then 20 ≤ score ≤ 79
  else 70 ≤ score ≤ 95 ∧ fallbackRequestsViews score isVideo = false.
Proof.
  intros _ _ score. subst score. unfold fallbackScore, fallbackRequestsViews.
  pose proof (Z.rem_bound_abs (fileNameHash name) 26 ltac:(lia)) as H26.
  pose proof (Z.rem_bound_abs (fileNameHash name + size `div` 1024) 60 ltac:(lia)) as H60.
  destruct suspiciousName; [lia|].
  split; [lia|].
  destruct (Z.ltb_spec (70 + Z.abs (Z.rem (fileNameHash name) 26)) 70); [lia|done].
Qed.

Lemma file_name_fake_png : file_name name_fake_png.
Proof. split; [repeat constructor; lia|simpl; lia]. Qed.

Lemma fileNameHash_exact_witness :
  Z.abs (fileNameHash [102; 97; 107; 101]) < 2 ^ 53
  ∧ Z.abs (shl5 (fileNameHash [102; 97; 107; 101])
           - fileNameHash [102; 97; 107; 101]) < 2 ^ 53.
Proof.
  apply (fileNameHash_exact name_fake_png).
  - split; [repeat constructor; lia|simpl; lia].
  - exists [46; 112; 110; 103]. reflexivity.
Defined.

Lemma authenticityScore_range_witness :
  15 ≤ authenticityScore true (fileNameHash name_fake_png) ≤ 45
  ∧ authenticityScore true (fileNameHash name_fake_png)
    = 15 + Z.abs (Z.rem (fileNameHash name_fake_png) 31).
Proof.
  apply (authenticityScore_range true name_fake_png).
  split; [repeat constructor; lia|simpl; lia].
Defined.

Lemma status_follows_name_witness :
  getStatusInfo (authenticityScore true (fileNameHash name_fake_png)) ≠ authentic.
Proof.
  apply (status_follows_name true name_fake_png).
  split; [repeat constructor; lia|simpl; lia].
Defined.

Lemma fallbackConfidence_range_witness :
  70 ≤ fallbackConfidence (fileNameHash name_fake_png) ≤ 94
  ∧ fallbackConfidence (fileNameHash name_fake_png)
    = Z.abs (Z.rem (fileNameHash name_fake_png) 25) + 70.
Proof.
  apply (fallbackConfidence_range name_fake_png).
  split; [repeat constructor; lia|simpl; lia].
Defined.

Lemma fallbackScore_range_witness :
  70 ≤ fallbackScore false (fileNameHash name_fake_png) 1000000 ≤ 95
  ∧ fallbackRequestsViews
      (fallbackScore false (fileNameHash name_fake_png) 1000000) false = false.
Proof.
  apply (fallbackScore_range false false name_fake_png 1000000).
  - split; [repeat constructor; lia|simpl; lia].
  - lia.
Defined.

(** ** The stored samples are bytes: filters map rasters to rasters *)

Lemma floor_bits_bound k acc c :
  acc ≤ floor_bits k acc c ≤ acc + 2 ^ Z.of_nat k - 1.
Proof.
  revert acc. induction k as [|k IH]; intros acc.
  - simpl. lia.
  - cbn [floor_bits]. rewrite Nat2Z.inj_succ, Z.pow_succ_r by lia.
    pose proof (Z.pow_pos_nonneg 2 (Z.of_nat k) ltac:(lia) ltac:(lia)).
    destruct (ofByte (acc + 2 ^ Z.of_nat k) <=? c)%float.
    + specialize (IH (acc + 2 ^ Z.of_nat k)). lia.
    + specialize (IH acc). lia.
Qed.

Lemma floor_bits_top k acc c :
  (0 < k)%nat → floor_bits k acc c = acc + 2 ^ Z.of_nat k - 1 →
  (ofByte (acc + 2 ^ Z.of_nat k - 1) <=? c)%float = true.
Proof.
  revert acc. induction k as [|k IH]; intros acc Hk Htop; [lia|].
  cbn [floor_bits] in Htop.
  rewrite Nat2Z.inj_succ, Z.pow_succ_r in * by lia.
  pose proof (Z.pow_pos_nonneg 2 (Z.of_nat k) ltac:(lia) ltac:(lia)) as Hpos.
  destruct (ofByte (acc + 2 ^ Z.of_nat k) <=? c)%float eqn:Hle.
  - destruct k as [|k'].
    + change (Z.of_nat 0) with 0 in *. rewrite Z.pow_0_r in *.
      by replace (acc + 2 * 1 - 1) with (acc + 1) by lia.
    + replace (acc + 2 * 2 ^ Z.of_nat (S k') - 1)
        with (acc + 2 ^ Z.of_nat (S k') + 2 ^ Z.of_nat (S k') - 1) by lia.
      apply IH; lia.
  - pose proof (floor_bits_bound k acc c). lia.
Qed.

Lemma SFcompare_antisym x y c :
  SFcompare x y = Some c → SFcompare y x = Some (CompOpp c).
Proof.
  destruct x as [s1|s1| |s1 m1 e1], y as [s2|s2| |s2 m2 e2]; simpl;
    try discriminate; intros [= <-]; try (by destruct s1, s2); try (by destruct s1);
    try (by destruct s2).
  assert (Pos.compare_cont Eq m2 m1 = CompOpp (Pos.compare_cont Eq m1 m2)) as Hm
    by (rewrite Pos.compare_cont_antisym; reflexivity).
  pose proof (Z.compare_antisym e1 e2) as He.
  destruct s1, s2; try reflexivity; rewrite He, Hm;
    destruct (e1 ?= e2); simpl; try reflexivity;
    destruct (Pos.compare_cont Eq m1 m2); reflexivity.
Qed.

Lemma SFcompare_Eq_finite x s m e :
  SFcompare x (S754_finite s m e) = Some Eq → x = S754_finite s m e.
Proof.
  destruct x as [s1|s1| |s1 m1 e1]; simpl; try discriminate.
  - by destruct s.
  - by destruct s1.
  - destruct s1, s; try discriminate; intros [= H];
      destruct (e1 ?= e) eqn:He; try discriminate;
      apply Z.compare_eq in He; subst e1.
    + apply (f_equal CompOpp) in H. rewrite CompOpp_involutive in H. simpl in H.
      apply Pos.compare_eq in H. by subst.
    + apply Pos.compare_eq in H. by subst.
Qed.

(** If the clamped value reaches 255 it is 255. *)
Lemma Math_min_255_top u :
  (255 <=? Math_min u 255)%float = true → Math_min u 255%float = 255%float.
Proof.
  assert (Prim2SF 255%float = S754_finite false 8972014882652160 (-45)) as H255
    by (vm_compute; reflexivity).
  unfold Math_min. destruct (PrimFloat.compare u 255) eqn:E; intros H.
  - rewrite FloatAxioms.compare_spec in E.
    destruct (SFcompare (Prim2SF u) (Prim2SF 255%float)) as [[]|] eqn:Ec;
      try discriminate.
    rewrite H255 in Ec. apply SFcompare_Eq_finite in Ec. rewrite <- H255 in Ec.
    apply Prim2SF_inj in Ec. subst u. reflexivity.
  - rewrite FloatAxioms.compare_spec in E.
    destruct (SFcompare (Prim2SF u) (Prim2SF 255%float)) as [[]|] eqn:Ec;
      try discriminate.
    apply SFcompare_antisym in Ec. rewrite FloatAxioms.leb_spec in H.
    unfold SFleb in H. rewrite Ec in H. discriminate.
  - reflexivity.
  - vm_compute in H. discriminate.
Qed.

Lemma floor_byte_unfold c : floor_byte c = floor_bits 8 0 c.
Proof. reflexivity. Qed.

Lemma floor_byte_range c : 0 ≤ floor_byte c ≤ 255.
Proof.
  rewrite floor_byte_unfold.
  pose proof (floor_bits_bound 8 0 c) as H.
  assert (0 + 2 ^ Z.of_nat 8 - 1 = 255) as E by (vm_compute; reflexivity).
  by rewrite E in H.
Qed.

Lemma floor_byte_top c : floor_byte c = 255 → (255 <=? c)%float = true.
Proof.
  rewrite floor_byte_unfold. intros H.
  assert (255 = 0 + 2 ^ Z.of_nat 8 - 1) as E by (vm_compute; reflexivity).
  rewrite E in H. apply floor_bits_top in H; [|lia]. rewrite <- E in H.
  assert (ofByte 255 = 255%float) as E' by (vm_compute; reflexivity).
  by rewrite E' in H.
Qed.

Lemma ToUint8Clamp_range v : 0 ≤ ToUint8Clamp v ≤ 255.
Proof.
  unfold ToUint8Clamp. destruct (is_nan v); [lia|]. cbv zeta.
  generalize (Math_max v 0%float). intros u.
  pose proof (floor_byte_range (Math_min u 255%float)) as Hb.
  destruct (decide (floor_byte (Math_min u 255%float) = 255)) as [Htop|Hlow].
  - pose proof (floor_byte_top _ Htop) as Hle.
    apply Math_min_255_top in Hle. rewrite Htop, Hle.
    vm_compute. split; discriminate.
  - destruct (Math_min u 255 <? ofByte (floor_byte (Math_min u 255)) + 0.5)%float;
      [lia|].
    destruct (ofByte (floor_byte (Math_min u 255)) + 0.5 <? Math_min u 255)%float;
      [lia|].
    destruct (Z.even (floor_byte (Math_min u 255%float))); lia.
Qed.

Lemma store_bytes arr i v :
  Forall (λ b, 0 ≤ b ≤ 255) arr → Forall (λ b, 0 ≤ b ≤ 255) (store arr i v).
Proof.
  intros H. unfold store. destruct (i <? 0); [done|].
  apply Forall_insert; [done|]. apply ToUint8Clamp_range.
Qed.

Lemma raster_loop_bytes w x0 x1 y0 y1 px out :
  Forall (λ b, 0 ≤ b ≤ 255) out →
  Forall (λ b, 0 ≤ b ≤ 255) (raster_loop w x0 x1 y0 y1 px out).
Proof.
  unfold raster_loop, for_range. revert out.
  induction (seqZ y0 (y1 - y0)) as [|y ys IHy]; intros out H; simpl; [done|].
  apply IHy. clear IHy. revert out H.
  induction (seqZ x0 (x1 - x0)) as [|x xs IHx]; intros out H; simpl; [done|].
  apply IHx. unfold store_pixel. by repeat apply store_bytes.
Qed.

(** Every filter maps a well-formed raster to a well-formed raster of the
    same dimensions (each stored sample is a byte), so that any two filters
    can be chained. *)
Theorem filters_chain (f g : Filter) (img : ImageData) :
  wf_image img →
  ∃ out out', apply_filter f img = Some out ∧ wf_image out
              ∧ apply_filter g out = Some out'
              ∧ width out' = width img ∧ height out' = height img.
Proof.
  intros Hwf.
  assert (wf_image (filtered (radius f) (kernel f) img)) as Hout.
  { destruct (Hwf) as [Hw Hh Hl Hb]. constructor.
    - exact Hw.
    - exact Hh.
    - exact (len_filtered (radius f) (kernel f) img Hw Hh).
    - apply raster_loop_bytes, Forall_replicate. lia. }
  exists (filtered (radius f) (kernel f) img),
         (filtered (radius g) (kernel g) (filtered (radius f) (kernel f) img)).
  split; [by apply apply_filter_returns|]. split; [done|].
  split; [by apply apply_filter_returns|]. done.
Qed.

Lemma filters_chain_witness :
  ∃ out out', apply_filter Color img3 = Some out ∧ wf_image out
              ∧ apply_filter Edge out = Some out'
              ∧ width out' = width img3 ∧ height out' = height img3.
Proof.
  apply (filters_chain Color Edge img3).
  apply wf_imageb_sound. vm_compute. reflexivity.
Defined.
